(** * Dungeon crawler core (csc-121/game-beta): model and verification

    A shallow embedding of the game engine under [models/]: the dungeon
    generator and movement rules ([dungeon.py]), the combatants
    ([character.py], [enemy.py]), the d20 combat resolver ([combat.py]) and
    the merchant ([merchant.py]).

    Python integers are [Z]; Python floats are the kernel's IEEE-754 binary64
    numbers ([PrimFloat]), which is the arithmetic CPython uses; dictionaries
    are [gmap]s keyed by strings; lists are lists.  Mutable objects are
    threaded explicitly: every method returns the new state of the objects it
    may have changed.  Randomness is an explicit source [G] whose state is
    threaded through every draw. *)

From Stdlib Require Import ZArith Floats.
From stdpp Require Import base option list gmap sets strings numbers relations.

(* The solvers of stdpp clear hypotheses that may already be gone. *)
#[local] Set Warnings "-clear-no-such-hyp".

Local Open Scope string_scope.
Local Open Scope list_scope.
Local Open Scope Z_scope.

(** ** Python values and exceptions *)

(** The result of running a piece of Python: a value, an exception that
    leaves the function, or (for the one recursive function of the model) the
    recursion budget of the model running out. *)
Inductive run (A : Type) : Type :=
| Ok (a : A)
| Raised
| OutOfFuel.
Arguments Ok {A} a.
Arguments Raised {A}.
Arguments OutOfFuel {A}.

Definition run_bind {A B} (m : run A) (k : A → run B) : run B :=
  match m with
  | Ok a => k a
  | Raised => Raised
  | OutOfFuel => OutOfFuel
  end.

Notation "x ←! m ; k" := (run_bind m (fun x => k))
  (at level 20, m at level 100, k at level 200, only parsing).
Notation "' p ←! m ; k" := (run_bind m (fun p => k))
  (at level 20, p pattern, m at level 100, k at level 200, only parsing).

Definition of_option {A} (o : option A) : run A :=
  match o with
  | Some a => Ok a
  | None => Raised
  end.

(** The scalar values found in item dictionaries (rows of the item table). *)
Inductive pyval : Type :=
| PInt (z : Z)
| PFloat (f : float)
| PStr (s : string)
| PNone.

(** [l[i]] on a Python list: a negative index counts from the end; the
    result is the position read, or [None] for [IndexError]. *)
Definition py_pos {A} (l : list A) (i : Z) : option nat :=
  let n := Z.of_nat (length l) in
  if bool_decide (0 ≤ i < n) then Some (Z.to_nat i)
  else if bool_decide (- n ≤ i < 0) then Some (Z.to_nat (n + i))
  else None.

Definition py_getitem {A} (l : list A) (i : Z) : option A :=
  n ← py_pos l i; l !! n.

(** [l.pop(i)]. *)
Definition py_pop {A} (l : list A) (i : Z) : option (A * list A) :=
  n ← py_pos l i; a ← l !! n; Some (a, delete n l).

(** ** Python numbers

    CPython's [float] is an IEEE-754 binary64 number and so is the kernel's
    [float]; [+], [-], [*], [/] on floats are the primitive operations. *)

(** [float(z)] for an integer: the nearest double, ties to even;
    [None] is the [OverflowError] of an integer too large for a double. *)
Definition float_of_Z (z : Z) : option float :=
  let f := SF2Prim (binary_normalize prec emax z 0 false) in
  if is_infinity f then None else Some f.

(** An integer as an exact (not normalised) binary number. *)
Definition SF_of_Z (z : Z) : spec_float :=
  match z with
  | Z0 => S754_zero false
  | Zpos p => S754_finite false p 0
  | Zneg p => S754_finite true p 0
  end.

(** [a / b] on two integers (true division): the double nearest to the
    exact quotient; [None] is [ZeroDivisionError] or [OverflowError]. *)
Definition int_truediv (a b : Z) : option float :=
  if bool_decide (b = 0) then None
  else
    let f := SF2Prim (SFdiv prec emax (SF_of_Z a) (SF_of_Z b)) in
    if is_infinity f then None else Some f.

(** [int(f)] for a float: truncation towards zero; [None] is the
    [ValueError] of a NaN or the [OverflowError] of an infinity. *)
Definition Z_of_float (f : float) : option Z :=
  match Prim2SF f with
  | S754_zero _ => Some 0
  | S754_finite s m e =>
      let a := if bool_decide (0 ≤ e) then Z.pos m * 2 ^ e else Z.pos m / 2 ^ (- e) in
      Some (if s then - a else a)
  | S754_infinity _ | S754_nan => None
  end.

(** What [float(v)] does on a scalar of an item dictionary. *)
Inductive conversion : Type :=
| Converted (f : float)
| ValueOrTypeError
| OverflowError.

(** Python's parser of float literals, [float(s)] on a string, is a
    parameter of the model. *)
Class FloatParser : Type := parse_float : string → option float.

Definition py_float `{FloatParser} (v : pyval) : conversion :=
  match v with
  | PInt z => match float_of_Z z with Some f => Converted f | None => OverflowError end
  | PFloat f => Converted f
  | PStr s => match parse_float s with Some f => Converted f | None => ValueOrTypeError end
  | PNone => ValueOrTypeError
  end.

(** The truth value of a dictionary: it is not empty. *)
Definition dict_truthy {V} (m : gmap string V) : bool :=
  match map_to_list m with
  | [] => false
  | _ => true
  end.

(** [d.get(key, default)]. *)
Definition dict_get {V} (m : gmap string V) (key : string) (dflt : V) : V :=
  default dflt (m !! key).

Definition f_0_5 : float := 0x1p-1%float.
Definition f_2_0 : float := 0x1p+1%float.
(** ** Items and enemies *)

(** An item is a dictionary from field names to scalars. *)
Abbreviation Item := (gmap string pyval).

(** [a == b] on two scalars: numbers compare by value across [int] and
    [float], a NaN equals nothing. *)
Definition pyval_eqb (a b : pyval) : bool :=
  match a, b with
  | PInt x, PInt y => bool_decide (x = y)
  | PFloat x, PFloat y => (x =? y)%float
  | PInt x, PFloat y | PFloat y, PInt x =>
      match Z_of_float y, float_of_Z x with
      | Some z, Some f => bool_decide (x = z) && (f =? y)%float
      | _, _ => false
      end
  | PStr x, PStr y => bool_decide (x = y)
  | PNone, PNone => true
  | _, _ => false
  end.

(** [a == b] on two dictionaries: the same keys with equal values. *)
Definition item_eqb (a b : Item) : bool :=
  bool_decide (dom a = dom b) &&
  forallb (fun kv => match b !! kv.1 with
                     | Some v => pyval_eqb kv.2 v
                     | None => false
                     end) (map_to_list a).

(** [item in l], by [==].  (Python tries identity first; that only matters
    for an item that holds a NaN.) *)
Definition item_in (item : Item) (l : list Item) : bool := existsb (item_eqb item) l.

(** [enemy.py], the fields of the [Enemy] dataclass once [__post_init__] has
    run ([current_health] is then an integer). *)
Record Enemy : Type := {
  e_name : string;
  e_tier : Z;
  e_current_health : Z;
  e_attack : Z;
  e_defense : Z;
  e_health : Z;
  e_xp_value : Z;
  e_min_copper : Z;
  e_max_copper : Z;
  e_common_drops : list string;
  e_rare_drops : list string;
  e_spawn_chance : float;
  e_is_player : bool
}.

(** ** The random source

    [random.shuffle], [random.random], [random.randint], [random.randrange]
    and [random.uniform] draw from a state of type [G].  The only law the
    model relies on is that a shuffle permutes its argument.
    [Enemy.get_random_enemy] (a weighted draw over a pandas table, then the
    [Enemy] constructor) is taken as one more operation of the environment:
    it returns an enemy or [None]. *)
Class RandomSource (G : Type) : Type := {
  shuffle : ∀ {A : Type}, G → list A → list A * G;
  shuffle_perm : ∀ (A : Type) (g : G) (l : list A), (shuffle g l).1 ≡ₚ l;
  random : G → float * G;
  randint : G → Z → Z → Z * G;
  randrange : G → Z → Z * G;
  uniform : G → float → float → float * G;
  get_random_enemy : Z → G → option Enemy * G
}.

(** ** The catalog ([database.py])

    The tables are CSV files outside the source tree; the model takes the
    lookups as given.  [get_tier_data] fills every key of the dictionary it
    returns, so a tier is a record. *)
Record TierData : Type := {
  td_tier : Z;
  td_title : string;
  td_attack : Z;
  td_defense : Z;
  td_health : Z;
  td_min_xp : Z;
  td_weapon : option string;
  td_armor : option string;
  td_special_ability : string
}.

Record Database : Type := {
  get_item : string → option Item;
  get_tier_data : Z → option TierData
}.

(** ** The player character ([character.py]) *)

Record Character : Type := {
  name : string;
  age : Z;
  tier : Z;
  xp : Z;
  current_health : Z;
  inventory : list Item;
  equipped_weapon : option Item;
  equipped_armor : option Item;
  equipped_shield : option Item;
  money : Z;
  is_player : bool;
  (* set by [_load_stats] *)
  title : string;
  base_attack : Z;
  base_defense : Z;
  max_health : Z;
  special_ability : string
}.

Definition set_current_health (h : Z) (c : Character) : Character :=
  {| name := name c; age := age c; tier := tier c; xp := xp c; current_health := h;
     inventory := inventory c; equipped_weapon := equipped_weapon c;
     equipped_armor := equipped_armor c; equipped_shield := equipped_shield c;
     money := money c; is_player := is_player c; title := title c;
     base_attack := base_attack c; base_defense := base_defense c;
     max_health := max_health c; special_ability := special_ability c |}.

Definition set_xp (v : Z) (c : Character) : Character :=
  {| name := name c; age := age c; tier := tier c; xp := v;
     current_health := current_health c;
     inventory := inventory c; equipped_weapon := equipped_weapon c;
     equipped_armor := equipped_armor c; equipped_shield := equipped_shield c;
     money := money c; is_player := is_player c; title := title c;
     base_attack := base_attack c; base_defense := base_defense c;
     max_health := max_health c; special_ability := special_ability c |}.

Definition set_tier (v : Z) (c : Character) : Character :=
  {| name := name c; age := age c; tier := v; xp := xp c;
     current_health := current_health c;
     inventory := inventory c; equipped_weapon := equipped_weapon c;
     equipped_armor := equipped_armor c; equipped_shield := equipped_shield c;
     money := money c; is_player := is_player c; title := title c;
     base_attack := base_attack c; base_defense := base_defense c;
     max_health := max_health c; special_ability := special_ability c |}.

Definition set_money (v : Z) (c : Character) : Character :=
  {| name := name c; age := age c; tier := tier c; xp := xp c;
     current_health := current_health c;
     inventory := inventory c; equipped_weapon := equipped_weapon c;
     equipped_armor := equipped_armor c; equipped_shield := equipped_shield c;
     money := v; is_player := is_player c; title := title c;
     base_attack := base_attack c; base_defense := base_defense c;
     max_health := max_health c; special_ability := special_ability c |}.

Definition set_inventory (v : list Item) (c : Character) : Character :=
  {| name := name c; age := age c; tier := tier c; xp := xp c;
     current_health := current_health c;
     inventory := v; equipped_weapon := equipped_weapon c;
     equipped_armor := equipped_armor c; equipped_shield := equipped_shield c;
     money := money c; is_player := is_player c; title := title c;
     base_attack := base_attack c; base_defense := base_defense c;
     max_health := max_health c; special_ability := special_ability c |}.



(** [_load_stats]: the base stats of the character's tier; [None] is the
    [ValueError] of a tier the catalog does not know. *)
Definition _load_stats (db : Database) (c : Character) : option Character :=
  tier_data ← get_tier_data db (tier c);
  Some {| name := name c; age := age c; tier := tier c; xp := xp c;
          current_health := current_health c;
          inventory := inventory c; equipped_weapon := equipped_weapon c;
          equipped_armor := equipped_armor c; equipped_shield := equipped_shield c;
          money := money c; is_player := is_player c;
          title := td_title tier_data;
          base_attack := td_attack tier_data;
          base_defense := td_defense tier_data;
          max_health := td_health tier_data;
          special_ability := td_special_ability tier_data |}.







(** [take_damage(damage)]: whether the character is still alive, and the
    character afterwards.  A negative amount raises inside the [try]; the
    handler logs and returns [True]. *)
Definition take_damage (c : Character) (damage : Z) : bool * Character :=
  if bool_decide (damage < 0) then (true, c)
  else
    let c' := set_current_health (Z.max 0 (current_health c - damage)) c in
    (bool_decide (current_health c' > 0), c').

(** [heal(amount)]: the amount actually healed, and the character
    afterwards.  A negative amount raises inside the [try]; the handler
    logs and returns 0. *)
Definition heal (c : Character) (amount : Z) : Z * Character :=
  if bool_decide (amount < 0) then (0, c)
  else
    let old_health := current_health c in
    let c' := set_current_health (Z.min (max_health c) (current_health c + amount)) c in
    (current_health c' - old_health, c').

(** [int(self.max_health * (self.current_health / old_health))]: a true
    division of two integers, a product of an integer and a float, a
    truncation.  [None] when one of them raises. *)
Definition rescale_health (new_max cur old_health : Z) : option Z :=
  health_percent ← int_truediv cur old_health;
  m ← float_of_Z new_max;
  Z_of_float (m * health_percent)%float.

(** [_level_up].  Its exceptions are logged and re-raised, and
    [_check_level_up], the only caller, logs them again and goes on: what
    reaches the caller is the character as the exception left it. *)
Definition _level_up (db : Database) (c : Character) : Character :=
  let old_health := max_health c in
  let c1 := set_tier (tier c + 1) c in
  match _load_stats db c1 with
  | None => c1
  | Some c2 =>
      match rescale_health (max_health c2) (current_health c2) old_health with
      | Some h => set_current_health h c2
      | None => c2
      end
  end.

(** [_check_level_up]: only the tier right after the current one is
    looked at. *)
Definition _check_level_up (db : Database) (c : Character) : Character :=
  match get_tier_data db (tier c + 1) with
  | Some next_tier_data =>
      if bool_decide (td_min_xp next_tier_data ≤ xp c) then _level_up db c else c
  | None => c
  end.

(** [add_xp(xp_amount)]. *)
Definition add_xp (db : Database) (c : Character) (xp_amount : Z) : Character :=
  if bool_decide (xp_amount < 0) then c
  else _check_level_up db (set_xp (xp c + xp_amount) c).

(** [add_item(item)] with a dictionary: a deep copy is appended. *)
Definition add_item (c : Character) (item : Item) : Character :=
  set_inventory (inventory c ++ [item]) c.

(** The loop of [remove_item]: the position of the first item of that
    name; [None] when an item without a name is met first (a [KeyError])
    or no item has the name. *)
Fixpoint find_by_name (item_name : pyval) (l : list Item) (i : nat) : option nat :=
  match l with
  | [] => None
  | inv_item :: rest =>
      match inv_item !! "name" with
      | None => None
      | Some n => if pyval_eqb n item_name then Some i else find_by_name item_name rest (S i)
      end
  end.

(** [remove_item(item)]. *)
Definition remove_item (c : Character) (item : Item) : bool * Character :=
  match item !! "name" with
  | None => (false, c)
  | Some item_name =>
      match find_by_name item_name (inventory c) 0 with
      | Some i => (true, set_inventory (delete i (inventory c)) c)
      | None => (false, c)
      end
  end.

(** [can_afford(price)] on an integer price. *)
Definition can_afford (c : Character) (price : Z) : bool :=
  if bool_decide (price < 0) then false else bool_decide (price ≤ money c).

Section CharacterStats.
Context `{FloatParser}.

(** [calculate_total_attack]: any exception gives [base_attack]. *)
Definition Character_total_attack (c : Character) : Z :=
  match equipped_weapon c with
  | Some w =>
      if dict_truthy w then
        match py_float (dict_get w "base_damage_min" (PInt 0)),
              py_float (dict_get w "base_damage_max" (PInt 0)) with
        | Converted min_dmg, Converted max_dmg =>
            match float_of_Z (base_attack c) with
            | Some b =>
                match Z_of_float (b + (min_dmg + max_dmg) / f_2_0)%float with
                | Some total => Z.max 0 total
                | None => base_attack c
                end
            | None => base_attack c
            end
        | _, _ => base_attack c
        end
      else Z.max 0 (base_attack c)
  | None => Z.max 0 (base_attack c)
  end.

(** The [+=] of [calculate_total_defense] on an equipment slot; [None]
    when it raises. *)
Definition add_defense (total : option float) (slot : option Item) (base : Z) : option (option float) :=
  match slot with
  | Some a =>
      if dict_truthy a then
        match py_float (dict_get a "base_defense" (PInt 0)) with
        | Converted f =>
            match total with
            | Some t => Some (Some (t + f)%float)
            | None => b ← float_of_Z base; Some (Some (b + f)%float)
            end
        | _ => None
        end
      else Some total
  | None => Some total
  end.

(** [calculate_total_defense]: [total] stays an integer until a slot adds
    a float to it; any exception gives [base_defense]. *)
Definition Character_total_defense (c : Character) : Z :=
  match add_defense None (equipped_armor c) (base_defense c) with
  | Some t1 =>
      match add_defense t1 (equipped_shield c) (base_defense c) with
      | Some None => Z.max 0 (base_defense c)
      | Some (Some t2) =>
          match Z_of_float t2 with
          | Some total => Z.max 0 total
          | None => base_defense c
          end
      | None => base_defense c
      end
  | None => base_defense c
  end.

End CharacterStats.

(** [Enemy.calculate_total_attack] and [Enemy.calculate_total_defense]. *)
Definition Enemy_total_attack (e : Enemy) : Z := Z.max 0 (e_attack e).
Definition Enemy_total_defense (e : Enemy) : Z := Z.max 0 (e_defense e).

(** A combatant is a character or an enemy. *)
Inductive Combatant : Type :=
| Player (c : Character)
| Foe (e : Enemy).

Section Combatants.
Context `{FloatParser}.

Definition calculate_total_attack (a : Combatant) : Z :=
  match a with
  | Player c => Character_total_attack c
  | Foe e => Enemy_total_attack e
  end.

Definition calculate_total_defense (a : Combatant) : Z :=
  match a with
  | Player c => Character_total_defense c
  | Foe e => Enemy_total_defense e
  end.

End Combatants.

(** The attribute [is_player], which both classes have. *)
Definition combatant_is_player (a : Combatant) : bool :=
  match a with
  | Player c => is_player c
  | Foe e => e_is_player e
  end.

(** ** The combat resolver ([combat.py]) *)

Section Combat.
Context {G : Type} `{RandomSource G} `{FloatParser}.

(** [roll_d20]. *)
Definition roll_d20 (g : G) : Z * G := randint g 1 20.

(** [calculate_hit(attacker, defender)]: [(hit, roll, critical)].  Both
    classes have the two methods the guard asks for, and neither method
    raises, so the handler of the [try] is never entered. *)
Definition calculate_hit (attacker defender : Combatant) (g : G) : (bool * Z * bool) * G :=
  let '(roll, g1) := roll_d20 g in
  if bool_decide (roll = 20) then ((true, roll, true), g1)
  else if bool_decide (roll = 1) then ((false, roll, false), g1)
  else
    let attack_bonus := calculate_total_attack attacker in
    let defense_class := 10 + calculate_total_defense defender in
    let attack_bonus := if combatant_is_player attacker then attack_bonus + 2 else attack_bonus in
    ((bool_decide (defense_class ≤ roll + attack_bonus), roll, false), g1).







End Combat.

(** ** The merchant ([merchant.py]) *)

(** The stock.  [_price_variation = 0.2] and [_sell_price_ratio = 0.5] never
    change. *)
Record Merchant : Type := {
  m_inventory : list Item
}.


(** [price * x] for the value under [price_copper] and a float [x];
    [None] when the product raises ([TypeError] for a string or [None],
    [OverflowError] for a huge integer). *)
Definition price_times (price : pyval) (x : float) : option float :=
  match price with
  | PInt z => f ← float_of_Z z; Some (f * x)%float
  | PFloat f => Some (f * x)%float
  | PStr _ | PNone => None
  end.

Section MerchantStock.
Context {G : Type} `{RandomSource G}.


End MerchantStock.

(** [get_item_value(item)]: [max(1, int(base_price * 0.5))], and 1 when
    that raises. *)
Definition get_item_value (item : Item) : Z :=
  match price_times (dict_get item "price_copper" (PInt 0)) f_0_5 ≫= Z_of_float with
  | Some z => Z.max 1 z
  | None => 1
  end.

(** The generator of [buy_item]: the first stocked item of that name, with
    its position; [None] when there is none or when an item without a name
    is met first (a [KeyError]). *)
Fixpoint find_stock (item_name : string) (l : list Item) (i : nat) : option (nat * Item) :=
  match l with
  | [] => None
  | it :: rest =>
      match it !! "name" with
      | None => None
      | Some n =>
          if pyval_eqb n (PStr item_name) then Some (i, it)
          else find_stock item_name rest (S i)
      end
  end.

(** [self._inventory.remove(item)] for the item found at position [i]:
    the first element that is that object or equals it goes. *)
Fixpoint remove_stock (item : Item) (l : list Item) (i : nat) : list Item :=
  match l, i with
  | [], _ => []
  | _ :: rest, O => rest
  | it :: rest, S i' => if item_eqb it item then rest else it :: remove_stock item rest i'
  end.

(** [buy_item(player, item_name)]: the result, the merchant and the player
    afterwards.  The outer [None] marks the one case the model leaves out:
    a stocked price that is a float, which would turn [player.money], an
    [int] field, into a float. *)
Definition buy_item (m : Merchant) (player : Character) (item_name : string)
  : option (bool * Merchant * Character) :=
  match find_stock item_name (m_inventory m) 0 with
  | None => Some (false, m, player)
  | Some (i, item) =>
      match item !! "price_copper" with
      | None => Some (false, m, player)
      | Some (PInt price) =>
          if can_afford player price then
            let player1 := set_money (money player - price) player in
            let player2 := add_item player1 item in
            Some (true, {| m_inventory := remove_stock item (m_inventory m) i |}, player2)
          else Some (false, m, player)
      | Some (PFloat _) => None
      | Some (PStr _) | Some PNone => Some (false, m, player)
      end
  end.

(** [sell_item(player, item)]: the result, the merchant and the player
    afterwards. *)
Definition sell_item (m : Merchant) (player : Character) (item : Item)
  : bool * Merchant * Character :=
  if negb (item_in item (inventory player)) then (false, m, player)
  else
    let sell_price := get_item_value item in
    let player1 := set_money (money player + sell_price) player in
    (true, m, (remove_item player1 item).2).
(** ** Rooms and the dungeon ([dungeon.py]) *)

Record Room : Type := {
  enemies : list Enemy;
  items : list Item;
  is_cleared : bool;
  is_visible : bool;
  has_merchant : bool;
  merchant_visited : bool;
  has_treasure : bool;
  treasure_looted : bool;
  is_end_room : bool;
  doors : gmap string bool
}.

(** [Room()] with the dataclass defaults. *)
Definition Room_default : Room := {|
  enemies := [];
  items := [];
  is_cleared := false;
  is_visible := false;
  has_merchant := false;
  merchant_visited := false;
  has_treasure := false;
  treasure_looted := false;
  is_end_room := false;
  doors := <["north" := false]> (<["south" := false]> (<["east" := false]> (<["west" := false]> ∅)))
|}.

Definition has_enemy (r : Room) : bool :=
  match enemies r with [] => false | _ => true end.

Definition with_doors (f : gmap string bool → gmap string bool) (r : Room) : Room :=
  {| enemies := enemies r; items := items r; is_cleared := is_cleared r;
     is_visible := is_visible r; has_merchant := has_merchant r;
     merchant_visited := merchant_visited r; has_treasure := has_treasure r;
     treasure_looted := treasure_looted r; is_end_room := is_end_room r;
     doors := f (doors r) |}.

Definition set_is_visible (r : Room) : Room :=
  {| enemies := enemies r; items := items r; is_cleared := is_cleared r;
     is_visible := true; has_merchant := has_merchant r;
     merchant_visited := merchant_visited r; has_treasure := has_treasure r;
     treasure_looted := treasure_looted r; is_end_room := is_end_room r;
     doors := doors r |}.

Definition append_enemy (e : Enemy) (r : Room) : Room :=
  {| enemies := enemies r ++ [e]; items := items r; is_cleared := is_cleared r;
     is_visible := is_visible r; has_merchant := has_merchant r;
     merchant_visited := merchant_visited r; has_treasure := has_treasure r;
     treasure_looted := treasure_looted r; is_end_room := is_end_room r;
     doors := doors r |}.

Definition set_has_treasure (r : Room) : Room :=
  {| enemies := enemies r; items := items r; is_cleared := is_cleared r;
     is_visible := is_visible r; has_merchant := has_merchant r;
     merchant_visited := merchant_visited r; has_treasure := true;
     treasure_looted := treasure_looted r; is_end_room := is_end_room r;
     doors := doors r |}.

Definition set_has_merchant (r : Room) : Room :=
  {| enemies := enemies r; items := items r; is_cleared := is_cleared r;
     is_visible := is_visible r; has_merchant := true;
     merchant_visited := merchant_visited r; has_treasure := has_treasure r;
     treasure_looted := treasure_looted r; is_end_room := is_end_room r;
     doors := doors r |}.

Definition set_is_end_room (r : Room) : Room :=
  {| enemies := enemies r; items := items r; is_cleared := is_cleared r;
     is_visible := is_visible r; has_merchant := has_merchant r;
     merchant_visited := merchant_visited r; has_treasure := has_treasure r;
     treasure_looted := treasure_looted r; is_end_room := true;
     doors := doors r |}.

Definition set_treasure_looted (r : Room) : Room :=
  {| enemies := enemies r; items := items r; is_cleared := is_cleared r;
     is_visible := is_visible r; has_merchant := has_merchant r;
     merchant_visited := merchant_visited r; has_treasure := has_treasure r;
     treasure_looted := true; is_end_room := is_end_room r;
     doors := doors r |}.

Definition set_merchant_visited (r : Room) : Room :=
  {| enemies := enemies r; items := items r; is_cleared := is_cleared r;
     is_visible := is_visible r; has_merchant := has_merchant r;
     merchant_visited := true; has_treasure := has_treasure r;
     treasure_looted := treasure_looted r; is_end_room := is_end_room r;
     doors := doors r |}.

(** Victory in combat: [is_cleared = True; enemies = []]. *)
Definition set_cleared (r : Room) : Room :=
  {| enemies := []; items := items r; is_cleared := true;
     is_visible := is_visible r; has_merchant := has_merchant r;
     merchant_visited := merchant_visited r; has_treasure := has_treasure r;
     treasure_looted := treasure_looted r; is_end_room := is_end_room r;
     doors := doors r |}.

(** The grid [self._rooms]: a list of rows, read as [rooms[y][x]]. *)
Abbreviation Grid := (list (list Room)).

Definition room_at (rooms : Grid) (x y : Z) : option Room :=
  row ← py_getitem rooms y; py_getitem row x.

(** An attribute assignment on the room object [rooms[y][x]]; [None] is
    the [IndexError] of either subscript. *)
Definition update_room (f : Room → Room) (rooms : Grid) (x y : Z) : option Grid :=
  iy ← py_pos rooms y;
  row ← rooms !! iy;
  ix ← py_pos row x;
  room ← row !! ix;
  Some (<[iy := <[ix := f room]> row]> rooms).

Definition in_bounds (size : Z) (x y : Z) : bool :=
  bool_decide (0 ≤ x < size) && bool_decide (0 ≤ y < size).

(** The same test on a cell. *)
Definition in_grid (size : Z) (c : Z * Z) : bool := in_bounds size c.1 c.2.
Arguments in_grid : simpl never.

Record Dungeon : Type := {
  d_tier : Z;
  d_size : Z;
  player_pos : Z * Z;
  rooms : Grid
}.

Section DungeonModel.
Context {G : Type} `{RandomSource G}.

(** *** Maze carving: [_generate_maze] and its local [carve_path] *)

(** The list literal of [carve_path]: [(dx, dy, dir1, dir2)]. *)
Definition directions0 : list (Z * Z * string * string) :=
  [ (0, 1, "south", "north"); (0, -1, "north", "south");
    (1, 0, "east", "west"); (-1, 0, "west", "east") ].

(** What [carve_path] reads and writes: the shared [visited] set, the grid
    of the dungeon, and the random source. *)
Record carve_state : Type := {
  visited : gset (Z * Z);
  c_rooms : Grid;
  c_rng : G
}.

(** [self._rooms[y][x].doors[dir] = True]. *)
Definition open_door (rooms : Grid) (x y : Z) (dir : string) : option Grid :=
  update_room (with_doors (insert dir true)) rooms x y.

(** The body of the [for] loop of [carve_path] for one tuple of the shuffled
    list; [recurse] is the recursive call. *)
Definition carve_step (recurse : Z → Z → carve_state → run carve_state)
    (size x y : Z) (acc : run carve_state) (t : Z * Z * string * string) : run carve_state :=
  let '(dx, dy, dir1, dir2) := t in
  st ←! acc;
  let new_x := x + dx in
  let new_y := y + dy in
  if in_bounds size new_x new_y && bool_decide ((new_x, new_y) ∉ visited st) then
    rooms1 ←! of_option (open_door (c_rooms st) x y dir1);
    rooms2 ←! of_option (open_door rooms1 new_x new_y dir2);
    recurse new_x new_y {| visited := visited st; c_rooms := rooms2; c_rng := c_rng st |}
  else Ok st.

(** [carve_path(x, y, visited)].  The recursion of the source is bounded in
    the model by [fuel], the depth still allowed. *)
Fixpoint carve_path (fuel : nat) (size : Z) (x y : Z) (st : carve_state) : run carve_state :=
  match fuel with
  | O => OutOfFuel
  | S fuel' =>
      let '(directions, g) := shuffle (c_rng st) directions0 in
      foldl (carve_step (carve_path fuel' size) size x y)
            (Ok {| visited := {[ (x, y) ]} ∪ visited st; c_rooms := c_rooms st; c_rng := g |})
            directions
  end.

(** The depth of [carve_path] never exceeds the number of rooms. *)
Definition maze_fuel (size : Z) : nat := Z.to_nat (size * size).

Definition _generate_maze (size : Z) (rooms : Grid) (g : G) : run (Grid * G) :=
  st ←! carve_path (maze_fuel size) size 0 0 {| visited := ∅; c_rooms := rooms; c_rng := g |};
  Ok (c_rooms st, c_rng st).

(** *** Population, treasure, merchant, end room *)

(** [ENEMY_SPAWN_CHANCE = 0.4] of [config.py], as the double it denotes. *)
Definition ENEMY_SPAWN_CHANCE : float := 0x1.999999999999ap-2%float.

(** The cells in the order of [for y in range(size): for x in range(size)]. *)
Definition cells_by_row (size : Z) : list (Z * Z) :=
  y ← seqZ 0 size; x ← seqZ 0 size; [(x, y)].

(** The cells in the order of [for x in range(size) for y in range(size)]. *)
Definition cells_by_column (size : Z) : list (Z * Z) :=
  x ← seqZ 0 size; y ← seqZ 0 size; [(x, y)].

(** A loop body inside a [try] whose handler only logs: the first
    exception ends the loop and keeps the rooms as they are by then. *)
Fixpoint populate_loop (tier : Z) (cells : list (Z * Z)) (rooms : Grid) (g : G) : Grid * G :=
  match cells with
  | [] => (rooms, g)
  | (x, y) :: rest =>
      if bool_decide ((x, y) ≠ (0, 0)) then
        let '(r, g1) := random g in
        if (r <? ENEMY_SPAWN_CHANCE)%float then
          let '(enemy, g2) := get_random_enemy tier g1 in
          match enemy with
          | Some e =>
              match update_room (append_enemy e) rooms x y with
              | Some rooms' => populate_loop tier rest rooms' g2
              | None => (rooms, g2)
              end
          | None => populate_loop tier rest rooms g2
          end
        else populate_loop tier rest rooms g1
      else populate_loop tier rest rooms g
  end.

(** [_populate_rooms].  [enemies_empty] is [enemies_df.empty] for the tier;
    the table lookup itself happens before the [try] and may raise. *)
Definition _populate_rooms (enemies_empty : option bool) (tier size : Z) (rooms : Grid) (g : G)
  : run (Grid * G) :=
  match enemies_empty with
  | None => Raised
  | Some true => Ok (rooms, g)
  | Some false => Ok (populate_loop tier (cells_by_row size) rooms g)
  end.

(** [not self._rooms[y][x].enemies] inside a comprehension; [None] when a
    subscript raises. *)
Fixpoint empty_cells (keep : Room → bool) (cells : list (Z * Z)) (rooms : Grid)
  : option (list (Z * Z)) :=
  match cells with
  | [] => Some []
  | (x, y) :: rest =>
      if bool_decide ((x, y) ≠ (0, 0)) then
        r ← room_at rooms x y;
        l ← empty_cells keep rest rooms;
        Some (if keep r then (x, y) :: l else l)
      else empty_cells keep rest rooms
  end.

Fixpoint treasure_loop (n : nat) (empty_rooms : list (Z * Z)) (rooms : Grid) (g : G) : Grid * G :=
  match n with
  | O => (rooms, g)
  | S n' =>
      match empty_rooms with
      | [] => (rooms, g)
      | _ =>
          let '(i, g1) := randrange g (Z.of_nat (length empty_rooms)) in
          match py_pop empty_rooms i with
          | Some ((x, y), rest) =>
              match update_room set_has_treasure rooms x y with
              | Some rooms' => treasure_loop n' rest rooms' g1
              | None => (rooms, g1)
              end
          | None => (rooms, g1)
          end
      end
  end.

(** [_place_treasure_rooms]: every exception is caught and logged. *)
Definition _place_treasure_rooms (tier size : Z) (rooms : Grid) (g : G) : Grid * G :=
  let '(num_treasures, g1) := randint g 1 tier in
  match empty_cells (fun r => negb (has_enemy r)) (cells_by_column size) rooms with
  | Some empty_rooms => treasure_loop (Z.to_nat num_treasures) empty_rooms rooms g1
  | None => (rooms, g1)
  end.

(** [_place_merchant]; [random.choice(seq)] is [seq[randrange(len(seq))]]. *)
Definition _place_merchant (size : Z) (rooms : Grid) (g : G) : Grid * G :=
  match empty_cells (fun r => negb (has_enemy r) && negb (has_treasure r))
          (cells_by_column size) rooms with
  | Some [] => (rooms, g)
  | Some empty_rooms =>
      let '(i, g1) := randrange g (Z.of_nat (length empty_rooms)) in
      match py_getitem empty_rooms i with
      | Some (x, y) => (default rooms (update_room set_has_merchant rooms x y), g1)
      | None => (rooms, g1)
      end
  | None => (rooms, g)
  end.

Definition _calculate_manhattan_distance (pos1 pos2 : Z * Z) : Z :=
  Z.abs (pos1.1 - pos2.1) + Z.abs (pos1.2 - pos2.2).

(** The scan of [_place_end_room]: the first cell of maximal distance. *)
Definition farthest_scan (pos : Z * Z) (cells : list (Z * Z)) : option (Z * Z) * Z :=
  foldl (fun '(farthest_room, max_distance) c =>
           let distance := _calculate_manhattan_distance c pos in
           if bool_decide (distance > max_distance) then (Some c, distance)
           else (farthest_room, max_distance))
        (None, 0) cells.

Definition _place_end_room (size : Z) (pos : Z * Z) (rooms : Grid) : Grid :=
  match (farthest_scan pos (cells_by_row size)).1 with
  | Some (x, y) => default rooms (update_room set_is_end_room rooms x y)
  | None => rooms
  end.

(** *** Visibility *)

(** The offsets [(dx, dy)] in the order of the two nested [range] loops
    of [_update_visibility], [view_range = 4]. *)
Definition view_offsets : list (Z * Z) :=
  dy ← seqZ (-4) 9; dx ← seqZ (-4) 9; [(dx, dy)].

Fixpoint visibility_loop (size x y : Z) (offsets : list (Z * Z)) (rooms : Grid) : Grid :=
  match offsets with
  | [] => rooms
  | (dx, dy) :: rest =>
      if bool_decide (dx * dx + dy * dy ≤ 4 * 4) then
        let new_x := x + dx in
        let new_y := y + dy in
        if in_bounds size new_x new_y then
          match update_room set_is_visible rooms new_x new_y with
          | Some rooms' => visibility_loop size x y rest rooms'
          | None => rooms
          end
        else visibility_loop size x y rest rooms
      else visibility_loop size x y rest rooms
  end.

(** [_update_visibility]: the handler only logs, so an [IndexError] leaves
    the rooms revealed so far. *)
Definition _update_visibility (d : Dungeon) : Dungeon :=
  {| d_tier := d_tier d; d_size := d_size d; player_pos := player_pos d;
     rooms := visibility_loop (d_size d) (player_pos d).1 (player_pos d).2 view_offsets (rooms d) |}.

(** *** Generation *)

(** [_generate_dungeon] on the fresh grid. *)
Definition _generate_dungeon (enemies_empty : option bool) (d : Dungeon) (g : G)
  : run (Dungeon * G) :=
  '(rooms1, g1) ←! _generate_maze (d_size d) (rooms d) g;
  '(rooms2, g2) ←! _populate_rooms enemies_empty (d_tier d) (d_size d) rooms1 g1;
  let '(rooms3, g3) := _place_treasure_rooms (d_tier d) (d_size d) rooms2 g2 in
  let '(rooms4, g4) := _place_merchant (d_size d) rooms3 g3 in
  let rooms5 := _place_end_room (d_size d) (player_pos d) rooms4 in
  rooms6 ←! of_option (update_room set_is_visible rooms5 0 0);
  Ok (_update_visibility
        {| d_tier := d_tier d; d_size := d_size d; player_pos := player_pos d; rooms := rooms6 |},
      g4).

(** [[[Room() for _ in range(size)] for _ in range(size)]]. *)
Definition fresh_grid (size : Z) : Grid :=
  replicate (Z.to_nat size) (replicate (Z.to_nat size) Room_default).

(** The argument [player_pos] of the constructor, clamped into the grid;
    [None] stands for anything that is not a pair. *)
Definition clamp_player_pos (size : Z) (pos : option (Z * Z)) : Z * Z :=
  match pos with
  | Some (px, py) => (Z.min (Z.max 0 px) (size - 1), Z.min (Z.max 0 py) (size - 1))
  | None => (0, 0)
  end.

(** [Dungeon(tier, size, player_pos)] with [rooms] left out: a new dungeon
    is generated. *)
Definition Dungeon_generate (enemies_empty : option bool) (tier size : Z)
    (pos : option (Z * Z)) (g : G) : run (Dungeon * G) :=
  if bool_decide (tier < 1) then Raised
  else if bool_decide (size < 5) then Raised
  else _generate_dungeon enemies_empty
         {| d_tier := tier; d_size := size; player_pos := clamp_player_pos size pos;
            rooms := fresh_grid size |} g.

(** *** Movement *)

Definition get_current_room (d : Dungeon) : option Room :=
  room_at (rooms d) (player_pos d).1 (player_pos d).2.

(** The dictionary [direction_map] of [move_player]. *)
Definition direction_map : gmap string (Z * Z) :=
  <["north" := (0, -1)]> (<["south" := (0, 1)]> (<["east" := (1, 0)]> (<["west" := (-1, 0)]> ∅))).

(** [move_player(direction)]: the result and the dungeon afterwards.  Every
    exception is caught and turned into [False]. *)
Definition move_player (d : Dungeon) (direction : string) : bool * Dungeon :=
  match get_current_room d with
  | None => (false, d)
  | Some current_room =>
      if negb (default false (doors current_room !! direction)) then (false, d)
      else
        match direction_map !! direction with
        | None => (false, d)
        | Some (dx, dy) =>
            let new_x := (player_pos d).1 + dx in
            let new_y := (player_pos d).2 + dy in
            if in_bounds (d_size d) new_x new_y then
              (true, _update_visibility
                       {| d_tier := d_tier d; d_size := d_size d;
                          player_pos := (new_x, new_y); rooms := rooms d |})
            else (false, d)
        end
  end.

(** [move_player_random_adjacent]: [doors.items()] in insertion order,
    filtered by the flag; the caller of the model supplies that order as
    [door_order]. *)
Definition move_player_random_adjacent (door_order : list string) (d : Dungeon) (g : G)
  : bool * Dungeon * G :=
  match get_current_room d with
  | None => (false, d, g)
  | Some current_room =>
      let available_directions :=
        filter (fun dir => default false (doors current_room !! dir) = true) door_order in
      match available_directions with
      | [] => (false, d, g)
      | _ =>
          let '(i, g1) := randrange g (Z.of_nat (length available_directions)) in
          match py_getitem available_directions i with
          | Some direction => (move_player d direction, g1)
          | None => (false, d, g1)
          end
      end
  end.

End DungeonModel.

Arguments carve_state G : clear implicits.

(** ** What the game loop does to a dungeon ([game_app.py])

    After generation the dungeon is changed by movement, by fleeing
    ([move_player_random_adjacent]), by combat (the first enemy of the
    current room takes damage; on victory the room is cleared), by looting
    the treasure of the current room and by visiting its merchant. *)

(** [Enemy.take_damage(damage)]: the result and the enemy afterwards. *)
Definition Enemy_take_damage (e : Enemy) (damage : Z) : bool * Enemy :=
  if bool_decide (damage < 0) then (true, e)
  else
    let h := Z.max 0 (e_current_health e - damage) in
    (bool_decide (h > 0),
     {| e_name := e_name e; e_tier := e_tier e; e_current_health := h;
        e_attack := e_attack e; e_defense := e_defense e; e_health := e_health e;
        e_xp_value := e_xp_value e; e_min_copper := e_min_copper e;
        e_max_copper := e_max_copper e; e_common_drops := e_common_drops e;
        e_rare_drops := e_rare_drops e; e_spawn_chance := e_spawn_chance e;
        e_is_player := e_is_player e |}).

(** The active enemy of a room, [enemies[0]], takes damage. *)
Definition damage_first_enemy (damage : Z) (r : Room) : Room :=
  {| enemies := match enemies r with
                | [] => []
                | e :: rest => (Enemy_take_damage e damage).2 :: rest
                end;
     items := items r; is_cleared := is_cleared r;
     is_visible := is_visible r; has_merchant := has_merchant r;
     merchant_visited := merchant_visited r; has_treasure := has_treasure r;
     treasure_looted := treasure_looted r; is_end_room := is_end_room r;
     doors := doors r |}.

(** An attribute assignment on the object returned by
    [get_current_room()]. *)
Definition update_current_room (f : Room → Room) (d : Dungeon) : option Dungeon :=
  rooms' ← update_room f (rooms d) (player_pos d).1 (player_pos d).2;
  Some {| d_tier := d_tier d; d_size := d_size d; player_pos := player_pos d; rooms := rooms' |}.

Inductive dungeon_step {G : Type} `{RandomSource G} : Dungeon → Dungeon → Prop :=
| step_move d direction :
    dungeon_step d (move_player d direction).2
| step_flee d door_order (g : G) :
    dungeon_step d (move_player_random_adjacent door_order d g).1.2
| step_hit d d' damage :
    update_current_room (damage_first_enemy damage) d = Some d' → dungeon_step d d'
| step_victory d d' :
    update_current_room set_cleared d = Some d' → dungeon_step d d'
| step_treasure d d' :
    update_current_room set_treasure_looted d = Some d' → dungeon_step d d'
| step_merchant d d' :
    update_current_room set_merchant_visited d = Some d' → dungeon_step d d'.

(** ** The door graph of a dungeon *)

Inductive direction : Type := North | South | East | West.

#[global] Instance direction_eq_dec : EqDecision direction.
Proof. solve_decision. Defined.

(** The key of a direction in [Room.doors]. *)
Definition dir_name (d : direction) : string :=
  match d with
  | North => "north"
  | South => "south"
  | East => "east"
  | West => "west"
  end.

Definition opposite (d : direction) : direction :=
  match d with
  | North => South
  | South => North
  | East => West
  | West => East
  end.

(** The offset [(dx, dy)] of a direction: north is [y - 1]. *)
Definition delta (d : direction) : Z * Z :=
  match d with
  | North => (0, -1)
  | South => (0, 1)
  | East => (1, 0)
  | West => (-1, 0)
  end.

(** The cell next to [c] in direction [d]. *)
Definition neighbour (c : Z * Z) (d : direction) : Z * Z :=
  (c.1 + (delta d).1, c.2 + (delta d).2).
Arguments neighbour : simpl never.

(** The flag [rooms[y][x].doors[d]] of a cell of the grid; [false] outside
    the grid. *)
Definition door_open (size : Z) (rooms : Grid) (c : Z * Z) (d : direction) : bool :=
  in_grid size c &&
  match room_at rooms c.1 c.2 with
  | Some r => default false (doors r !! dir_name d)
  | None => false
  end.

(** The doors of a grid as a function of cell and direction. *)
Abbreviation DoorMap := (Z * Z → direction → bool).

(** One step through an open door into a room of the grid: what
    [move_player] allows. *)
Definition passage (size : Z) (D : DoorMap) (a b : Z * Z) : Prop :=
  ∃ d, D a d = true ∧ b = neighbour a d ∧ in_grid size b = true.

Definition reachable (size : Z) (D : DoorMap) : relation (Z * Z) :=
  rtc (passage size D).

(** A walk: consecutive cells are related. *)
Fixpoint walk {A} (R : relation A) (l : list A) : Prop :=
  match l with
  | a :: (b :: _) as t => R a b ∧ walk R t
  | _ => True
  end.

(** A cycle: at least three distinct cells, each joined to the next and the
    last joined to the first. *)
Definition cycle {A} (R : relation A) (l : list A) : Prop :=
  NoDup l ∧ (3 ≤ length l)%nat ∧ walk R l ∧
  ∃ a z, head l = Some a ∧ last l = Some z ∧ R z a.

Definition acyclic {A} (R : relation A) : Prop := ∀ l, ¬ cycle R l.

(** Every door-edge joins a cell to its southern or eastern neighbour, so
    the edges are counted by the open south and east doors. *)
Definition edge_slots (cells : list (Z * Z)) : list ((Z * Z) * direction) :=
  c ← cells; [(c, South); (c, East)].

Definition count_open (D : DoorMap) (slots : list ((Z * Z) * direction)) : nat :=
  length (filter (fun p => D p.1 p.2 = true) slots).

Definition door_edges (size : Z) (D : DoorMap) : nat :=
  count_open D (edge_slots (cells_by_row size)).

(** Door symmetry over the grid: a door and its mirror carry the same
    flag. *)
Definition doors_symmetric (size : Z) (D : DoorMap) : Prop :=
  ∀ (a : Z * Z) (d : direction),
    in_grid size a = true → in_grid size (neighbour a d) = true →
    D a d = D (neighbour a d) (opposite d).

(** The open doors form a spanning tree of the grid rooted at the start
    cell: every room is reached from [(0, 0)], there are [size² - 1]
    door-edges, no cycle, and every open door leads to a room of the grid
    whose mirrored door is open. *)
Definition spanning_tree (size : Z) (D : DoorMap) : Prop :=
  (∀ c, in_grid size c = true → reachable size D (0, 0) c) ∧
  Z.of_nat (door_edges size D) = size * size - 1 ∧
  acyclic (passage size D) ∧
  (∀ a d, D a d = true →
     in_grid size (neighbour a d) = true ∧ D (neighbour a d) (opposite d) = true).

(** A grid of [size] rows of [size] rooms. *)
Definition grid_ok (size : Z) (rooms : Grid) : Prop :=
  Z.of_nat (length rooms) = size ∧ ∀ row, row ∈ rooms → Z.of_nat (length row) = size.

(** ** Invariants used by the proofs *)

(** Two cells joined by an open door. *)
Definition adj (D : DoorMap) (a b : Z * Z) : Prop :=
  ∃ d, D a d = true ∧ b = neighbour a d.

(** The open doors form a tree on the set [V] of cells, rooted at the
    start cell. *)
Record tree_on (sz : Z) (V : gset (Z * Z)) (D : DoorMap) : Prop := {
  tree_root : (0, 0) ∈ V;
  tree_bounds : ∀ c, c ∈ V → in_grid sz c = true;
  tree_doors : ∀ c d, D c d = true →
    c ∈ V ∧ neighbour c d ∈ V ∧ D (neighbour c d) (opposite d) = true;
  tree_reach : ∀ c, c ∈ V → rtc (adj D) (0, 0) c;
  tree_count : S (door_edges sz D) = size V;
  tree_acyclic : acyclic (adj D)
}.

Definition all_directions : list direction := [South; North; East; West].

(** The tuple of [directions] that stands for a direction. *)
Definition dir_tuple (d : direction) : Z * Z * string * string :=
  ((delta d).1, (delta d).2, dir_name d, dir_name (opposite d)).

(** The cells of the grid as a set. *)
Definition cells_set (sz : Z) : gset (Z * Z) := list_to_set (cells_by_row sz).

(** How many cells of the grid are not yet in [V]. *)
Definition unvisited (sz : Z) (V : gset (Z * Z)) : nat := size (cells_set sz ∖ V).

(** Every neighbour, inside the grid, of a cell of [A] is in [B]. *)
Definition closed (sz : Z) (A B : gset (Z * Z)) : Prop :=
  ∀ c d, c ∈ A → in_grid sz (neighbour c d) = true → neighbour c d ∈ B.

Section CarvingInvariants.
Context {G : Type} `{RandomSource G}.

(** The state of the carving keeps a well-formed grid whose open doors
    form a tree on the visited cells. *)
Definition carve_inv (sz : Z) (st : carve_state G) : Prop :=
  grid_ok sz (c_rooms st) ∧ tree_on sz (visited st) (door_open sz (c_rooms st)).

(** What a call [carve_path(x, y, visited)] achieves, given enough depth:
    it returns, the tree now covers every cell it visited, and all the
    neighbours of those cells are visited. *)
Definition carve_spec (sz : Z) (fuel : nat) : Prop :=
  ∀ x y (st : carve_state G),
    in_bounds sz x y = true → (x, y) ∉ visited st →
    grid_ok sz (c_rooms st) →
    tree_on sz ({[ (x, y) ]} ∪ visited st) (door_open sz (c_rooms st)) →
    (unvisited sz (visited st) ≤ fuel)%nat →
    ∃ st', carve_path fuel sz x y st = Ok st' ∧ carve_inv sz st' ∧
           {[ (x, y) ]} ∪ visited st ⊆ visited st' ∧
           closed sz (visited st' ∖ visited st) (visited st').

End CarvingInvariants.

(** The [doors] dictionaries of a grid, room by room. *)
Definition doors_of (rooms : Grid) : list (list (gmap string bool)) :=
  (fun row : list Room => doors <$> row) <$> rooms.

(** The second grid has the shape and the doors of the first. *)
Definition same_doors (rooms rooms' : Grid) : Prop :=
  (∀ sz, grid_ok sz rooms → grid_ok sz rooms') ∧ doors_of rooms' = doors_of rooms.



(** ** Vocabulary of the character claims *)

(** A call of one of the two health methods. *)
Inductive health_call : Type :=
| TakeDamage (amount : Z)
| Heal (amount : Z).

Definition apply_call (c : Character) (call : health_call) : Character :=
  match call with
  | TakeDamage amount => (take_damage c amount).2
  | Heal amount => (heal c amount).2
  end.

(** The health fraction [cur / old_max] applied to [new_max] and rounded
    down, in exact arithmetic. *)
Definition exact_rescale (new_max cur old_max : Z) : Z := (new_max * cur) / old_max.

(** The base stats of a character are those of a tier record. *)
Definition has_stats_of (c : Character) (td : TierData) : Prop :=
  title c = td_title td ∧ base_attack c = td_attack td ∧ base_defense c = td_defense td ∧
  max_health c = td_health td ∧ special_ability c = td_special_ability td.
(** ** A concrete random source

    A linear congruential generator; its shuffle inserts each element at a
    drawn position.  It serves to run the model on examples. *)
Definition lcg_next (g : Z) : Z := (g * 1103515245 + 12345) `mod` 2147483648.

Fixpoint lcg_shuffle {A} (g : Z) (l : list A) : list A * Z :=
  match l with
  | [] => ([], g)
  | a :: t =>
      let '(t', g1) := lcg_shuffle g t in
      let k := Z.to_nat (g1 `mod` (Z.of_nat (length t') + 1)) in
      (take k t' ++ a :: drop k t', lcg_next g1)
  end.

#[global] Instance lcg_source : RandomSource Z.
Proof.
  refine {| shuffle := @lcg_shuffle;
            random := fun g => (PrimFloat.of_uint63 (Uint63.of_Z (g `mod` 2)) / 2, lcg_next g)%float;
            randint := fun g a b => (a + g `mod` (b - a + 1), lcg_next g);
            randrange := fun g n => (g `mod` n, lcg_next g);
            uniform := fun g a b => (a, lcg_next g);
            get_random_enemy := fun _ g => (None, lcg_next g) |}.
  intros A g l. induction l as [|a t IH]; simpl; [done|].
  destruct (lcg_shuffle g t) as [t' g1]; simpl in *.
  rewrite <- Permutation_middle, take_drop. by constructor.
Defined.

(** A dungeon generated from the concrete random source, and one move in
    it. *)
Definition demo_dungeon : Dungeon :=
  match Dungeon_generate (Some false) 1 5 None (42 : Z) with
  | Ok (d, _) => d
  | _ => {| d_tier := 1; d_size := 5; player_pos := (0, 0); rooms := [] |}
  end.


(** No string is read as a float. *)
#[global] Instance no_float_parser : FloatParser := fun _ => None.

(** A small catalog: two tiers, a potion, a sword. *)
Definition demo_potion : Item :=
  <["name" := PStr "Lesser Health Potion"]> (<["type" := PStr "consumable"]>
  (<["price_copper" := PInt 10]> (<["effect" := PStr "heal_10"]> ∅))).

Definition demo_sword : Item :=
  <["name" := PStr "Rusty Sword"]> (<["type" := PStr "weapon"]>
  (<["base_damage_min" := PFloat 0x1p+0%float]> (<["base_damage_max" := PFloat 0x1p+2%float]>
  (<["price_copper" := PInt 100]> ∅)))).

Definition demo_db : Database := {|
  get_item := fun n =>
    if bool_decide (n = "Lesser Health Potion") then Some demo_potion
    else if bool_decide (n = "Rusty Sword") then Some demo_sword
    else None;
  get_tier_data := fun t =>
    if bool_decide (t = 1) then
      Some {| td_tier := 1; td_title := "Novice"; td_attack := 5; td_defense := 2;
              td_health := 100; td_min_xp := 0; td_weapon := Some "Rusty Sword";
              td_armor := None; td_special_ability := "none" |}
    else if bool_decide (t = 2) then
      Some {| td_tier := 2; td_title := "Adept"; td_attack := 8; td_defense := 4;
              td_health := 200; td_min_xp := 100; td_weapon := Some "Rusty Sword";
              td_armor := None; td_special_ability := "none" |}
    else if bool_decide (t = 3) then
      Some {| td_tier := 3; td_title := "Veteran"; td_attack := 12; td_defense := 6;
              td_health := 300; td_min_xp := 300; td_weapon := Some "Rusty Sword";
              td_armor := None; td_special_ability := "none" |}
    else None
|}.

(** A tier-1 character with 29 of 100 health, no weapon, an empty
    inventory and 250 copper. *)
Definition demo_character : Character := {|
  name := "Hero"; age := 30; tier := 1; xp := 0; current_health := 29;
  inventory := []; equipped_weapon := None; equipped_armor := None;
  equipped_shield := None; money := 250; is_player := true;
  title := "Novice"; base_attack := 5; base_defense := 2; max_health := 100;
  special_ability := "none"
|}.

(** An enemy with defense 4. *)
Definition demo_enemy : Enemy := {|
  e_name := "Goblin"; e_tier := 1; e_current_health := 12; e_attack := 3;
  e_defense := 4; e_health := 12; e_xp_value := 10; e_min_copper := 10;
  e_max_copper := 20; e_common_drops := []; e_rare_drops := [];
  e_spawn_chance := 0x1p-1%float; e_is_player := false
|}.

(** A merchant stocking the sword at 120 copper. *)
Definition demo_merchant : Merchant :=
  {| m_inventory := [<["price_copper" := PInt 120]> demo_sword; demo_potion] |}.
(** * Walks and cycles *)

Section Cycles.
Context {A : Type} `{EqDecision A}.
Implicit Types (R : relation A) (l : list A).

Lemma walk_cons_inv R a l : walk R (a :: l) → walk R l.
Proof. destruct l as [|b t]; simpl; tauto. Qed.

Lemma walk_snoc R l a :
  walk R l → (∀ z, last l = Some z → R z a) → walk R (l ++ [a]).
Proof.
  induction l as [|b t IH]; intros Hw Hl; [done|].
  destruct t as [|c t].
  - simpl. split; [|done]. by apply Hl.
  - destruct Hw as [Hbc Hw]. change (R b c ∧ walk R ((c :: t) ++ [a])).
    split; [done|]. apply IH; [done|]. intros z Hz. apply Hl. by rewrite last_cons_cons.
Qed.

Lemma walk_impl R R' l :
  (∀ a b, a ∈ l → b ∈ l → R a b → R' a b) → walk R l → walk R' l.
Proof.
  induction l as [|a t IH]; intros HR Hw; [done|].
  destruct t as [|b t]; [done|]. destruct Hw as [Hab Hw]. split.
  - apply HR; [apply list_elem_of_here|apply list_elem_of_further, list_elem_of_here|done].
  - apply IH; [|done]. intros x y Hx Hy. apply HR; by apply list_elem_of_further.
Qed.

(** Turning a cycle by one cell. *)
Lemma cycle_rotate R a l : cycle R (a :: l) → cycle R (l ++ [a]).
Proof.
  intros (Hnd & Hlen & Hw & a' & z & Ha & Hz & Hza).
  simpl in Ha. injection Ha as <-.
  destruct l as [|b t]; [simpl in Hlen; lia|].
  rewrite last_cons_cons in Hz. destruct Hw as [Hab Hw].
  split_and!.
  - apply NoDup_ListNoDup. apply NoDup_ListNoDup in Hnd.
    eapply Permutation.Permutation_NoDup; [|exact Hnd].
    change (a :: b :: t) with ([a] ++ (b :: t)). apply Permutation_app_comm.
  - rewrite length_app. simpl in *. lia.
  - apply walk_snoc; [done|]. intros z' Hz'. congruence.
  - exists b, a. split_and!; [done| |done]. by rewrite last_snoc.
Qed.

Lemma cycle_to_front R l1 v l2 : cycle R (l1 ++ v :: l2) → ∃ l', cycle R (v :: l').
Proof.
  revert l2. induction l1 as [|a t IH]; intros l2 Hc; [by exists l2|].
  apply cycle_rotate in Hc. rewrite <- app_assoc in Hc. simpl in Hc.
  by apply IH in Hc.
Qed.

(** Hanging a new cell [v] on the graph by one edge [u - v] creates no
    cycle. *)
Lemma acyclic_add_leaf R R' (u v : A) :
  acyclic R →
  (∀ a b, R' a b → R a b ∨ (a = u ∧ b = v) ∨ (a = v ∧ b = u)) →
  (∀ b, ¬ R v b) → (∀ b, ¬ R b v) →
  acyclic R'.
Proof.
  intros Hac HR' Hv1 Hv2 l Hc.
  destruct (decide (v ∈ l)) as [Hin|Hnin].
  - apply list_elem_of_split in Hin as (l1 & l2 & ->).
    apply cycle_to_front in Hc as (l' & Hnd & Hlen & Hw & a & z & Ha & Hz & Hza).
    simpl in Ha. injection Ha as <-.
    destruct l' as [|x [|y t]]; [simpl in Hlen; lia..|].
    destruct Hw as [Hvx _].
    rewrite !last_cons_cons in Hz.
    assert (z ∈ y :: t) as Hzin by (by apply last_Some_elem_of).
    apply NoDup_cons in Hnd as [Hv Hnd]. apply NoDup_cons in Hnd as [Hx _].
    assert (x = u) as ->.
    { destruct (HR' _ _ Hvx) as [HR|[[_ ->]|[_ ->]]]; [by apply Hv1 in HR| |done].
      exfalso. apply Hv. apply list_elem_of_here. }
    assert (z = u) as ->.
    { destruct (HR' _ _ Hza) as [HR|[[-> _]|[-> _]]]; [by apply Hv2 in HR|done|].
      exfalso. apply Hv. by apply list_elem_of_further. }
    done.
  - destruct Hc as (Hnd & Hlen & Hw & a & z & Ha & Hz & Hza).
    assert (∀ a b, a ∈ l → b ∈ l → R' a b → R a b) as Hsub.
    { intros x y Hx Hy HR. destruct (HR' _ _ HR) as [?|[[_ ->]|[-> _]]]; done. }
    apply (Hac l). split_and!; [done|done|by eapply walk_impl|].
    exists a, z. split_and!; [done|done|].
    apply Hsub; [by apply last_Some_elem_of|by apply head_Some_elem_of|done].
Qed.
End Cycles.
(** * The grid as a list of rows *)

Lemma in_bounds_true size x y :
  in_bounds size x y = true ↔ (0 ≤ x < size) ∧ (0 ≤ y < size).
Proof.
  unfold in_bounds. rewrite andb_true_iff, !bool_decide_eq_true. tauto.
Qed.

Lemma py_pos_nonneg {A} (l : list A) (i : Z) :
  0 ≤ i < Z.of_nat (length l) → py_pos l i = Some (Z.to_nat i).
Proof. intros Hi. unfold py_pos. by rewrite bool_decide_eq_true_2. Qed.

Lemma py_pos_lt {A} (l : list A) (i : Z) (n : nat) :
  py_pos l i = Some n → (n < length l)%nat.
Proof.
  unfold py_pos. repeat case_bool_decide; intros [= <-]; lia.
Qed.

Lemma py_pos_length {A B} (l : list A) (l' : list B) (i : Z) :
  length l = length l' → py_pos l i = py_pos l' i.
Proof. unfold py_pos. by intros ->. Qed.

Lemma grid_ok_row size (rooms : Grid) (i : nat) row :
  grid_ok size rooms → rooms !! i = Some row → Z.of_nat (length row) = size.
Proof. intros [_ Hrows] Hi. apply Hrows. by eapply list_elem_of_lookup_2. Qed.

Lemma room_at_in_bounds size (rooms : Grid) x y :
  grid_ok size rooms → in_bounds size x y = true →
  room_at rooms x y = rooms !! Z.to_nat y ≫= (fun row => row !! Z.to_nat x) ∧
  is_Some (room_at rooms x y).
Proof.
  intros Hok [Hx Hy]%in_bounds_true.
  assert (Hlen := proj1 Hok).
  destruct (lookup_lt_is_Some_2 rooms (Z.to_nat y)) as [row Hrow]; [lia|].
  assert (Hrl := grid_ok_row _ _ _ _ Hok Hrow).
  destruct (lookup_lt_is_Some_2 row (Z.to_nat x)) as [r Hr]; [lia|].
  unfold room_at, py_getitem.
  rewrite py_pos_nonneg by lia. simpl. rewrite Hrow. simpl.
  rewrite py_pos_nonneg by lia. simpl. rewrite Hr. eauto.
Qed.

(** An update of one room keeps the shape of the grid and touches no other
    room. *)
Lemma update_room_shape f (rooms rooms' : Grid) x y size :
  update_room f rooms x y = Some rooms' → grid_ok size rooms → grid_ok size rooms'.
Proof.
  unfold update_room. intros Hu [Hlen Hrows].
  destruct (py_pos rooms y) as [iy|]; [|done]. simpl in Hu.
  destruct (rooms !! iy) as [row|] eqn:Hrow; [|done]. simpl in Hu.
  destruct (py_pos row x) as [ix|]; [|done]. simpl in Hu.
  destruct (row !! ix) as [r|]; [|done]. simpl in Hu. injection Hu as <-.
  split; [by rewrite length_insert|].
  intros row' [i Hi]%list_elem_of_lookup_1.
  destruct (decide (i = iy)) as [->|Hne].
  - rewrite list_lookup_insert_eq in Hi by (by eapply lookup_lt_Some).
    injection Hi as <-. rewrite length_insert. apply Hrows. by eapply list_elem_of_lookup_2.
  - rewrite list_lookup_insert_ne in Hi by done. apply Hrows. by eapply list_elem_of_lookup_2.
Qed.

Lemma room_at_update f (rooms rooms' : Grid) x y x' y' :
  update_room f rooms x y = Some rooms' →
  room_at rooms' x' y' = room_at rooms x' y' ∨
  ∃ r, room_at rooms x' y' = Some r ∧ room_at rooms' x' y' = Some (f r).
Proof.
  unfold update_room. intros Hu.
  destruct (py_pos rooms y) as [iy|]; [|done]. simpl in Hu.
  destruct (rooms !! iy) as [row|] eqn:Hrow; [|done]. simpl in Hu.
  destruct (py_pos row x) as [ix|]; [|done]. simpl in Hu.
  destruct (row !! ix) as [r|] eqn:Hr; [|done]. simpl in Hu. injection Hu as <-.
  unfold room_at, py_getitem.
  rewrite (py_pos_length (<[iy:=<[ix:=f r]> row]> rooms) rooms) by apply length_insert.
  destruct (py_pos rooms y') as [jy|] eqn:Hjy; [|by left]. simpl.
  destruct (decide (jy = iy)) as [->|Hne].
  - rewrite list_lookup_insert_eq by (by eapply lookup_lt_Some). rewrite Hrow. simpl.
    rewrite (py_pos_length (<[ix:=f r]> row) row) by apply length_insert.
    destruct (py_pos row x') as [jx|] eqn:Hjx; [|by left]. simpl.
    destruct (decide (jx = ix)) as [->|Hne].
    + rewrite list_lookup_insert_eq by (by eapply lookup_lt_Some). right. eauto.
    + rewrite list_lookup_insert_ne by done. by left.
  - rewrite list_lookup_insert_ne by done. by left.
Qed.

Lemma update_room_in_bounds f size (rooms : Grid) x y :
  grid_ok size rooms → in_bounds size x y = true →
  ∃ r rooms', room_at rooms x y = Some r ∧ update_room f rooms x y = Some rooms' ∧
    grid_ok size rooms' ∧
    ∀ x' y', in_bounds size x' y' = true →
      room_at rooms' x' y' = if decide ((x', y') = (x, y)) then Some (f r) else room_at rooms x' y'.
Proof.
  intros Hok Hb. assert (Hb' := Hb). apply in_bounds_true in Hb' as [Hx Hy].
  assert (Hlen := proj1 Hok).
  destruct (lookup_lt_is_Some_2 rooms (Z.to_nat y)) as [row Hrow]; [lia|].
  assert (Hrl := grid_ok_row _ _ _ _ Hok Hrow).
  destruct (lookup_lt_is_Some_2 row (Z.to_nat x)) as [r Hr]; [lia|].
  exists r, (<[Z.to_nat y := <[Z.to_nat x := f r]> row]> rooms).
  assert (update_room f rooms x y = Some (<[Z.to_nat y := <[Z.to_nat x := f r]> row]> rooms)) as Hu.
  { unfold update_room. rewrite py_pos_nonneg by lia. simpl. rewrite Hrow. simpl.
    rewrite py_pos_nonneg by lia. simpl. by rewrite Hr. }
  assert (grid_ok size (<[Z.to_nat y := <[Z.to_nat x := f r]> row]> rooms)) as Hok'
    by (by eapply update_room_shape).
  split_and!; [|done|done|].
  - destruct (room_at_in_bounds _ _ _ _ Hok Hb) as [-> _]. rewrite Hrow. simpl. done.
  - intros x' y' Hb2.
    destruct (room_at_in_bounds _ _ _ _ Hok' Hb2) as [-> _].
    destruct (room_at_in_bounds _ _ _ _ Hok Hb2) as [-> _].
    apply in_bounds_true in Hb2 as [Hx' Hy'].
    destruct (decide (Z.to_nat y' = Z.to_nat y)) as [Hey|Hney].
    + rewrite Hey, list_lookup_insert_eq by (by eapply lookup_lt_Some). rewrite Hrow. simpl.
      destruct (decide (Z.to_nat x' = Z.to_nat x)) as [Hex|Hnex].
      * rewrite Hex, list_lookup_insert_eq by (by eapply lookup_lt_Some).
        rewrite decide_True; [done|]. f_equal; lia.
      * rewrite list_lookup_insert_ne by done.
        rewrite decide_False; [done|]. intros [= -> ->]. done.
    + rewrite list_lookup_insert_ne by done.
      rewrite decide_False; [done|]. intros [= -> ->]. done.
Qed.

(** *** Doors under updates *)

Lemma dir_name_inj d1 d2 : dir_name d1 = dir_name d2 → d1 = d2.
Proof. by destruct d1, d2. Qed.

(** An update that leaves [doors] alone changes no door of the grid. *)
Lemma door_open_update_other f size (rooms rooms' : Grid) x y c d :
  (∀ r, doors (f r) = doors r) →
  update_room f rooms x y = Some rooms' →
  door_open size rooms' c d = door_open size rooms c d.
Proof.
  intros Hf Hu. unfold door_open.
  destruct (room_at_update f rooms rooms' x y c.1 c.2 Hu) as [->|(r & -> & ->)]; [done|].
  by rewrite Hf.
Qed.

(** Opening a door sets exactly that flag. *)
Lemma door_open_open_door size (rooms : Grid) x y (d0 : direction) :
  grid_ok size rooms → in_bounds size x y = true →
  ∃ rooms', open_door rooms x y (dir_name d0) = Some rooms' ∧ grid_ok size rooms' ∧
    ∀ c d, door_open size rooms' c d = true ↔
           door_open size rooms c d = true ∨ (c = (x, y) ∧ d = d0).
Proof.
  intros Hok Hb.
  destruct (update_room_in_bounds (with_doors (insert (dir_name d0) true)) _ _ _ _ Hok Hb)
    as (r & rooms' & Hr & Hu & Hok' & Hat).
  exists rooms'. split_and!; [done..|].
  intros [cx cy] d. unfold door_open, in_grid. simpl.
  destruct (in_bounds size cx cy) eqn:Hc; simpl.
  - rewrite (Hat _ _ Hc). case_decide as Heq.
    + injection Heq as -> ->. rewrite Hr. simpl.
      destruct (decide (d = d0)) as [->|Hne].
      * rewrite lookup_insert_eq. naive_solver.
      * rewrite lookup_insert_ne by (intros ?%dir_name_inj; done). naive_solver.
    + naive_solver.
  - split; [done|]. intros [?|[[= -> ->] _]]; [done|congruence].
Qed.

(** * Trees grown leaf by leaf *)

Lemma neighbour_opposite c d : neighbour (neighbour c d) (opposite d) = c.
Proof. destruct c as [x y]. unfold neighbour. destruct d; simpl; f_equal; lia. Qed.

Lemma opposite_involutive d : opposite (opposite d) = d.
Proof. by destruct d. Qed.

Lemma elem_of_cells_by_row sz x y :
  (x, y) ∈ cells_by_row sz ↔ in_bounds sz x y = true.
Proof.
  unfold cells_by_row. rewrite in_bounds_true, list_elem_of_bind. split.
  - intros (y' & Hin & Hy). apply list_elem_of_bind in Hin as (x' & Hin & Hx).
    apply list_elem_of_singleton in Hin as [= -> ->].
    apply elem_of_seqZ in Hx, Hy. lia.
  - intros [Hx Hy]. exists y. split; [|apply elem_of_seqZ; lia].
    apply list_elem_of_bind. exists x. split; [apply list_elem_of_singleton; done|].
    apply elem_of_seqZ; lia.
Qed.

Lemma NoDup_cells_by_row sz : NoDup (cells_by_row sz).
Proof.
  unfold cells_by_row. apply NoDup_bind.
  - intros y1 y2 c _ _ Hc1 Hc2.
    apply list_elem_of_bind in Hc1 as (x1 & ->%list_elem_of_singleton & _).
    apply list_elem_of_bind in Hc2 as (x2 & [= _ ->]%list_elem_of_singleton & _). done.
  - intros y _. apply NoDup_bind.
    + intros x1 x2 c _ _ ->%list_elem_of_singleton [= ->]%list_elem_of_singleton. done.
    + intros x _. apply NoDup_singleton.
    + apply NoDup_seqZ.
  - apply NoDup_seqZ.
Qed.

Lemma length_bind_const {A B} (f : A → list B) (k : nat) (l : list A) :
  (∀ a, length (f a) = k) → length (l ≫= f) = (length l * k)%nat.
Proof.
  intros Hf. induction l as [|a l IH]; [done|].
  rewrite bind_cons, length_app, IH, Hf. simpl. lia.
Qed.

Lemma length_cells_by_row sz : 0 ≤ sz → Z.of_nat (length (cells_by_row sz)) = sz * sz.
Proof.
  intros Hsz. unfold cells_by_row.
  rewrite (length_bind_const _ (Z.to_nat sz)).
  - rewrite length_seqZ. lia.
  - intros y. rewrite (length_bind_const _ 1%nat) by done. rewrite length_seqZ. lia.
Qed.

(** *** Counting door-edges *)

Lemma elem_of_edge_slots cells c e :
  (c, e) ∈ edge_slots cells ↔ c ∈ cells ∧ (e = South ∨ e = East).
Proof.
  unfold edge_slots. rewrite list_elem_of_bind. split.
  - intros (c' & Hin & Hc). apply elem_of_cons in Hin as [[= -> ->]|Hin]; [by auto|].
    apply list_elem_of_singleton in Hin as [= -> ->]. by auto.
  - intros [Hc [-> | ->]]; exists c; (split; [|done]).
    + apply list_elem_of_here.
    + apply list_elem_of_further, list_elem_of_here.
Qed.

Lemma NoDup_edge_slots cells : NoDup cells → NoDup (edge_slots cells).
Proof.
  intros Hnd. unfold edge_slots. apply NoDup_bind; [| |done].
  - intros c1 c2 p _ _ H1 H2.
    apply elem_of_cons in H1 as [-> | ->%list_elem_of_singleton];
      apply elem_of_cons in H2 as [[= ->]|[= ->]%list_elem_of_singleton]; done.
  - intros c _. apply NoDup_cons. split; [|apply NoDup_singleton].
    intros [=]%list_elem_of_singleton.
Qed.

Lemma count_open_iff (D D' : DoorMap) slots :
  (∀ p, p ∈ slots → (D' p.1 p.2 = true ↔ D p.1 p.2 = true)) →
  count_open D' slots = count_open D slots.
Proof.
  unfold count_open. induction slots as [|p t IH]; intros Hiff; [done|].
  rewrite !filter_cons.
  assert (D' p.1 p.2 = true ↔ D p.1 p.2 = true) as Hp by apply Hiff, list_elem_of_here.
  assert (length (filter (fun p => D' p.1 p.2 = true) t)
          = length (filter (fun p => D p.1 p.2 = true) t)) as Ht.
  { apply IH. intros q Hq. by apply Hiff, list_elem_of_further. }
  repeat case_decide; simpl; try tauto; by rewrite Ht.
Qed.

(** Setting one more flag of the counted slots adds one to the count. *)
Lemma count_open_add (D D' : DoorMap) slots p0 :
  NoDup slots → p0 ∈ slots → D p0.1 p0.2 = false →
  (∀ p, p ∈ slots → (D' p.1 p.2 = true ↔ D p.1 p.2 = true ∨ p = p0)) →
  count_open D' slots = S (count_open D slots).
Proof.
  induction slots as [|p t IH]; intros Hnd Hin H0 Hiff; [by apply elem_of_nil in Hin|].
  apply NoDup_cons in Hnd as [Hp Hnd].
  assert (D' p.1 p.2 = true ↔ D p.1 p.2 = true ∨ p = p0) as Hhead
    by apply Hiff, list_elem_of_here.
  unfold count_open in *. rewrite !filter_cons.
  apply elem_of_cons in Hin as [->|Hin].
  - rewrite decide_True by tauto. rewrite decide_False by congruence. simpl. f_equal.
    apply (count_open_iff D D' t). intros q Hq.
    rewrite (Hiff q) by (by apply list_elem_of_further).
    split; [|tauto]. intros [?| ->]; done.
  - assert (p ≠ p0) by (by intros ->).
    assert (length (filter (fun p => D' p.1 p.2 = true) t)
            = S (length (filter (fun p => D p.1 p.2 = true) t))) as Ht.
    { apply IH; [done..|]. intros q Hq. by apply Hiff, list_elem_of_further. }
    repeat case_decide; simpl; try tauto; by rewrite Ht.
Qed.

(** *** The invariant of maze carving *)

Lemma south_or_east d :
  (d = South ∨ d = East) ∧ opposite d ≠ South ∧ opposite d ≠ East ∨
  (opposite d = South ∨ opposite d = East) ∧ d ≠ South ∧ d ≠ East.
Proof. destruct d; simpl; intuition congruence. Qed.

Lemma tree_on_add_leaf (sz : Z) V (D D' : DoorMap) u d :
  tree_on sz V D → u ∈ V → neighbour u d ∉ V →
  in_grid sz (neighbour u d) = true →
  (∀ c e, D' c e = true ↔
          D c e = true ∨ (c = u ∧ e = d) ∨ (c = neighbour u d ∧ e = opposite d)) →
  tree_on sz ({[ neighbour u d ]} ∪ V) D'.
Proof.
  intros [Hroot Hb Hdoors Hreach Hcount Hac] Hu Hv Hvb HD'.
  set (v := neighbour u d) in *.
  assert (∀ e, D v e = false) as Hv1.
  { intros e. destruct (D v e) eqn:He; [|done]. by apply Hdoors in He as [? _]. }
  assert (∀ b e, D b e = true → neighbour b e ≠ v) as Hv2.
  { intros b e He Heq. apply Hdoors in He as (_ & ? & _). by rewrite Heq in *. }
  assert (∀ a b, adj D a b → adj D' a b) as Hmono.
  { intros a b (e & He & ->). exists e. split; [|done]. apply HD'. by left. }
  split.
  - set_solver.
  - intros c [->%elem_of_singleton|Hc]%elem_of_union; [done|by apply Hb].
  - intros c e [He|[[-> ->]|[-> ->]]]%HD'.
    + apply Hdoors in He as (? & ? & ?). split_and!; [set_solver..|]. apply HD'. by left.
    + split_and!; [set_solver..|]. apply HD'. right. right. done.
    + unfold v. rewrite neighbour_opposite, opposite_involutive.
      split_and!; [set_solver..|]. apply HD'. right. left. done.
  - intros c [->%elem_of_singleton|Hc]%elem_of_union.
    + eapply rtc_r; [eapply rtc_subrel; [exact Hmono|by apply Hreach]|].
      exists d. split; [|done]. apply HD'. right. left. done.
    + eapply rtc_subrel; [exact Hmono|by apply Hreach].
  - rewrite size_union by set_solver. rewrite size_singleton, <- Hcount. simpl. f_equal.
    unfold door_edges.
    assert (NoDup (edge_slots (cells_by_row sz))) as Hnd
      by apply NoDup_edge_slots, NoDup_cells_by_row.
    assert (u ∈ cells_by_row sz) as Hucell.
    { destruct u. apply elem_of_cells_by_row. by apply (Hb (_, _)). }
    assert (v ∈ cells_by_row sz) as Hvcell.
    { destruct v. by apply elem_of_cells_by_row. }
    destruct (south_or_east d) as [(Hd & Ho1 & Ho2)|(Hd & Ho1 & Ho2)].
    + apply (count_open_add D D' _ (u, d)); [done|by apply elem_of_edge_slots| |].
      * simpl. destruct (D u d) eqn:He; [|done]. by apply Hv2 in He.
      * intros [c e] [_ He]%elem_of_edge_slots. simpl. rewrite HD'.
        split; [|intros [?|[= -> ->]]; by auto].
        intros [?|[[-> ->]|[-> ->]]]; [by auto..|]. destruct He; congruence.
    + apply (count_open_add D D' _ (v, opposite d)); [done|by apply elem_of_edge_slots|apply Hv1|].
      intros [c e] [_ He]%elem_of_edge_slots. simpl. rewrite HD'.
      split; [|intros [?|[= -> ->]]; by auto].
      intros [?|[[-> ->]|[-> ->]]]; [by auto| |by auto]. destruct He; congruence.
  - apply (acyclic_add_leaf (adj D) (adj D') u v); [done| | |].
    + intros a b (e & [He|[[-> ->]|[-> ->]]]%HD' & ->).
      * left. by exists e.
      * right. left. done.
      * right. right. unfold v. by rewrite neighbour_opposite.
    + intros b (e & He & _). by rewrite Hv1 in He.
    + intros b (e & He & Heq). by eapply Hv2.
Qed.

(** * Maze carving builds a spanning tree *)

Lemma elem_of_cells_set sz c : c ∈ cells_set sz ↔ in_grid sz c = true.
Proof. destruct c. unfold cells_set. rewrite elem_of_list_to_set. apply elem_of_cells_by_row. Qed.

Lemma carve_step_tuple {G} (recurse : Z → Z → carve_state G → run (carve_state G))
    sz x y (st : carve_state G) d :
  carve_step recurse sz x y (Ok st) (dir_tuple d) =
  let v := neighbour (x, y) d in
  if in_grid sz v && bool_decide (v ∉ visited st) then
    rooms1 ←! of_option (open_door (c_rooms st) x y (dir_name d));
    rooms2 ←! of_option (open_door rooms1 v.1 v.2 (dir_name (opposite d)));
    recurse v.1 v.2 {| visited := visited st; c_rooms := rooms2; c_rng := c_rng st |}
  else Ok st.
Proof. reflexivity. Qed.

Lemma unvisited_mono (sz : Z) (V V' : gset (Z * Z)) :
  V ⊆ V' → (unvisited sz V' ≤ unvisited sz V)%nat.
Proof. intros HV. apply subseteq_size. set_solver. Qed.

Lemma unvisited_add (sz : Z) (V : gset (Z * Z)) (c : Z * Z) :
  in_grid sz c = true → c ∉ V →
  unvisited sz V = S (unvisited sz ({[ c ]} ∪ V)).
Proof.
  intros Hb Hc. unfold unvisited.
  assert (cells_set sz ∖ V = {[ c ]} ∪ cells_set sz ∖ ({[ c ]} ∪ V)) as ->.
  { apply set_eq. intros c'. rewrite elem_of_union, !elem_of_difference, elem_of_union,
      elem_of_singleton, !elem_of_cells_set.
    destruct (decide (c' = c)) as [->|]; tauto. }
  rewrite size_union by set_solver. by rewrite size_singleton.
Qed.

Section Carving.
Context {G : Type} `{RandomSource G}.

Lemma directions0_tuples : directions0 = dir_tuple <$> all_directions.
Proof. reflexivity. Qed.

Lemma carve_loop_spec sz fuel x y ds (st : carve_state G) :
  carve_spec sz fuel →
  in_bounds sz x y = true → (x, y) ∈ visited st → carve_inv sz st →
  (unvisited sz (visited st) ≤ fuel)%nat →
  ∃ st', foldl (carve_step (carve_path fuel sz) sz x y) (Ok st) (dir_tuple <$> ds) = Ok st' ∧
         carve_inv sz st' ∧ visited st ⊆ visited st' ∧
         closed sz (visited st' ∖ visited st) (visited st') ∧
         ∀ d, d ∈ ds → in_grid sz (neighbour (x, y) d) = true →
              neighbour (x, y) d ∈ visited st'.
Proof.
  intros Hrec Hb. revert st. induction ds as [|d ds IH]; intros st Hxy [Hok Htree] Hfuel.
  { exists st. split_and!; [done|done|done| |].
    - intros c d. set_solver.
    - intros d Hd. by apply elem_of_nil in Hd. }
  rewrite fmap_cons. cbn [foldl]. rewrite carve_step_tuple. cbv zeta.
  set (v := neighbour (x, y) d).
  assert (in_grid sz (x, y) = true) as Hbxy by done.
  destruct (in_grid sz v) eqn:Hvb; cbn [andb].
  - case_bool_decide as Hv.
    + (* a new cell: the doors are opened and the walk goes on from it *)
      destruct (door_open_open_door sz (c_rooms st) x y d Hok Hb)
        as (rooms1 & -> & Hok1 & HD1).
      cbn [of_option run_bind].
      destruct (door_open_open_door sz rooms1 v.1 v.2 (opposite d) Hok1 Hvb)
        as (rooms2 & -> & Hok2 & HD2).
      cbn [of_option run_bind].
      assert (tree_on sz ({[ v ]} ∪ visited st) (door_open sz rooms2)) as Htree2.
      { apply (tree_on_add_leaf sz (visited st) (door_open sz (c_rooms st)) _ (x, y) d);
          [done..|].
        intros c e. rewrite HD2, HD1. fold v. destruct v. simpl. tauto. }
      destruct (Hrec v.1 v.2 {| visited := visited st; c_rooms := rooms2; c_rng := c_rng st |})
        as (st2 & Hrun & [Hok3 Htree3] & Hsub3 & Hcl3); cbn [visited c_rooms c_rng];
        [exact Hvb|by destruct v|done|by destruct v|done|].
      rewrite Hrun. cbn [visited c_rooms c_rng] in Hsub3, Hcl3.
      destruct (IH st2) as (st' & Hfold & Hinv' & Hsub' & Hcl' & Hds');
        [set_solver|done|etrans; [apply unvisited_mono|exact Hfuel]; set_solver|].
      exists st'. split_and!; [done|done|set_solver| |].
      * intros c e Hc Hce. destruct (decide (c ∈ visited st2)) as [Hc2|Hc2].
        -- apply Hsub', Hcl3; [|done]. set_solver.
        -- apply Hcl'; [|done]. set_solver.
      * intros d' [->|Hd']%elem_of_cons Hbd'; [|by apply Hds'].
        apply Hsub', Hsub3. fold v. destruct v. set_solver.
    + (* already visited *)
      destruct (IH st) as (st' & Hfold & Hinv' & Hsub' & Hcl' & Hds'); [done..|].
      exists st'. split_and!; [done..|].
      intros d' [->|Hd']%elem_of_cons Hbd'; [|by apply Hds'].
      by apply Hsub'.
  - (* outside the grid *)
    destruct (IH st) as (st' & Hfold & Hinv' & Hsub' & Hcl' & Hds'); [done..|].
    exists st'. split_and!; [done..|].
    intros d' [->|Hd']%elem_of_cons Hbd'; [|by apply Hds'].
    fold v in Hbd'. congruence.
Qed.

Lemma carve_path_spec sz fuel : carve_spec sz fuel.
Proof.
  induction fuel as [|fuel IH]; intros x y st Hb Hxy Hok Htree Hfuel.
  { rewrite (unvisited_add sz (visited st) (x, y)) in Hfuel by done. lia. }
  simpl. destruct (shuffle (c_rng st) directions0) as [directions g] eqn:Hsh.
  assert (directions ≡ₚ directions0) as Hperm.
  { pose proof (shuffle_perm _ (c_rng st) directions0) as Hp. by rewrite Hsh in Hp. }
  rewrite directions0_tuples in Hperm.
  change (dir_tuple <$> all_directions) with (map dir_tuple all_directions) in Hperm.
  apply Permutation_map_inv in Hperm as (ds & -> & Hds).
  change (map dir_tuple ds) with (dir_tuple <$> ds).
  destruct (carve_loop_spec sz fuel x y ds
              {| visited := {[ (x, y) ]} ∪ visited st; c_rooms := c_rooms st; c_rng := g |})
    as (st' & Hfold & Hinv' & Hsub' & Hcl' & Hds'); simpl; [done|done|set_solver|done| |].
  { rewrite (unvisited_add sz (visited st) (x, y)) in Hfuel by done. lia. }
  simpl in *. exists st'. split_and!; [done..|].
  intros c e Hc Hce. destruct (decide (c = (x, y))) as [->|Hne].
  - apply Hds'; [|done]. rewrite <- Hds. destruct e; set_solver.
  - apply Hcl'; [|done]. set_solver.
Qed.

End Carving.

(** *** From the invariant to the spanning tree *)

Lemma cycle_impl {A} (R R' : relation A) l :
  (∀ a b, R a b → R' a b) → cycle R l → cycle R' l.
Proof.
  intros HR (Hnd & Hlen & Hw & a & z & Ha & Hz & Hza).
  split_and!; [done|done| |].
  - eapply walk_impl; [|done]. auto.
  - exists a, z. auto.
Qed.

Lemma closed_covers (sz : Z) (V : gset (Z * Z)) :
  (0, 0) ∈ V → closed sz V V → ∀ c, in_grid sz c = true → c ∈ V.
Proof.
  intros H0 Hcl [x y] [Hx Hy]%in_bounds_true. simpl in Hx, Hy.
  assert (∀ n : nat, Z.of_nat n < sz → (Z.of_nat n, 0) ∈ V) as Hrow.
  { induction n as [|n IH]; intros Hn; [done|].
    assert ((Z.of_nat (S n), 0) = neighbour (Z.of_nat n, 0) East) as ->
      by (unfold neighbour; simpl; f_equal; lia).
    apply Hcl; [apply IH; lia|].
    apply in_bounds_true. unfold neighbour. simpl. lia. }
  assert (∀ m : nat, Z.of_nat m < sz → (x, Z.of_nat m) ∈ V) as Hcol.
  { induction m as [|m IH]; intros Hm.
    - rewrite <- (Z2Nat.id x) by lia. apply Hrow. lia.
    - assert ((x, Z.of_nat (S m)) = neighbour (x, Z.of_nat m) South) as ->
        by (unfold neighbour; simpl; f_equal; lia).
      apply Hcl; [apply IH; lia|].
      apply in_bounds_true. unfold neighbour. simpl. lia. }
  rewrite <- (Z2Nat.id y) by lia. apply Hcol. lia.
Qed.

Lemma size_cells_set sz : 0 ≤ sz → Z.of_nat (size (cells_set sz)) = sz * sz.
Proof.
  intros Hsz. unfold cells_set.
  rewrite size_list_to_set by apply NoDup_cells_by_row. by apply length_cells_by_row.
Qed.

Lemma tree_on_spanning (sz : Z) (V : gset (Z * Z)) (D : DoorMap) :
  0 ≤ sz → tree_on sz V D → closed sz V V → spanning_tree sz D.
Proof.
  intros Hsz [Hroot Hb Hdoors Hreach Hcount Hac] Hcl.
  assert (∀ c, in_grid sz c = true → c ∈ V) as Hall by (by apply closed_covers).
  assert (∀ a b, adj D a b → passage sz D a b) as Hadj.
  { intros a b (d & Hd & ->). exists d. split_and!; [done..|].
    apply Hb. by apply Hdoors in Hd as (_ & ? & _). }
  split_and!.
  - intros c Hc. eapply rtc_subrel; [exact Hadj|]. by apply Hreach, Hall.
  - assert (V = cells_set sz) as ->.
    { apply set_eq. intros c. rewrite elem_of_cells_set. split; [apply Hb|apply Hall]. }
    pose proof (size_cells_set sz Hsz). lia.
  - intros l Hc. apply (Hac l). eapply cycle_impl; [|done].
    intros a b (d & Hd & -> & _). by exists d.
  - intros a d Hd. apply Hdoors in Hd as (_ & Hn & Ho). split; [by apply Hb|done].
Qed.

(** *** The fresh grid *)

Lemma grid_ok_fresh sz : 0 ≤ sz → grid_ok sz (fresh_grid sz).
Proof.
  intros Hsz. unfold fresh_grid. split.
  - rewrite length_replicate. lia.
  - intros row [-> _]%elem_of_replicate. rewrite length_replicate. lia.
Qed.

Lemma room_at_fresh sz x y :
  in_bounds sz x y = true → room_at (fresh_grid sz) x y = Some Room_default.
Proof.
  intros Hb. assert (0 ≤ sz) as Hsz by (apply in_bounds_true in Hb; lia).
  destruct (room_at_in_bounds sz (fresh_grid sz) x y (grid_ok_fresh sz Hsz) Hb) as [-> _].
  apply in_bounds_true in Hb as [Hx Hy]. unfold fresh_grid.
  rewrite lookup_replicate_2 by lia. simpl. by rewrite lookup_replicate_2 by lia.
Qed.

Lemma door_open_fresh sz c d : door_open sz (fresh_grid sz) c d = false.
Proof.
  unfold door_open, in_grid. destruct (in_bounds sz c.1 c.2) eqn:Hb; [|done].
  rewrite room_at_fresh by done. by destruct d.
Qed.

Lemma tree_on_start sz (D : DoorMap) :
  1 ≤ sz → (∀ c d, D c d = false) → tree_on sz {[ (0, 0) ]} D.
Proof.
  intros Hsz HD. split.
  - set_solver.
  - intros c ->%elem_of_singleton. apply in_bounds_true. simpl. lia.
  - intros c d Hd. by rewrite HD in Hd.
  - intros c ->%elem_of_singleton. done.
  - rewrite size_singleton. f_equal. unfold door_edges, count_open.
    induction (edge_slots (cells_by_row sz)) as [|p t IH]; [done|].
    rewrite filter_cons, decide_False; [done|]. by rewrite HD.
  - intros l (_ & Hlen & Hw & _). destruct l as [|a [|b t]]; [simpl in Hlen; lia..|].
    destruct Hw as [(d & Hd & _) _]. by rewrite HD in Hd.
Qed.

Section Generation.
Context {G : Type} `{RandomSource G}.

(** [_generate_maze] on the fresh grid returns, and the doors it opened form
    a spanning tree. *)
Lemma generate_maze_spanning sz (g : G) :
  1 ≤ sz →
  ∃ rooms' g', _generate_maze sz (fresh_grid sz) g = Ok (rooms', g') ∧
               grid_ok sz rooms' ∧ spanning_tree sz (door_open sz rooms').
Proof.
  intros Hsz. unfold _generate_maze.
  destruct (carve_path_spec sz (maze_fuel sz) 0 0
              {| visited := ∅; c_rooms := fresh_grid sz; c_rng := g |})
    as (st' & -> & [Hok Htree] & Hsub & Hcl); cbn [visited c_rooms c_rng].
  - apply in_bounds_true. lia.
  - set_solver.
  - apply grid_ok_fresh. lia.
  - rewrite (right_id_L ∅ (∪)). apply tree_on_start; [done|]. apply door_open_fresh.
  - unfold unvisited, maze_fuel. rewrite difference_empty_L.
    pose proof (size_cells_set sz). lia.
  - cbn [run_bind]. eexists _, _. split_and!; [done|done|].
    apply (tree_on_spanning sz (visited st')); [lia|done|].
    cbn [visited] in Hcl. intros c d Hc. apply Hcl. set_solver.
Qed.

End Generation.

(** * Operations that leave the doors alone *)

Lemma same_doors_refl rooms : same_doors rooms rooms.
Proof. by split. Qed.

Lemma same_doors_trans rooms1 rooms2 rooms3 :
  same_doors rooms1 rooms2 → same_doors rooms2 rooms3 → same_doors rooms1 rooms3.
Proof. intros [H1 E1] [H2 E2]. split; [auto|congruence]. Qed.

Lemma update_room_same_doors f (rooms rooms' : Grid) x y :
  (∀ r, doors (f r) = doors r) →
  update_room f rooms x y = Some rooms' → same_doors rooms rooms'.
Proof.
  intros Hf Hu. split; [intros sz; by eapply update_room_shape|].
  unfold update_room in Hu.
  destruct (py_pos rooms y) as [iy|]; [|done]. simpl in Hu.
  destruct (rooms !! iy) as [row|] eqn:Hrow; [|done]. simpl in Hu.
  destruct (py_pos row x) as [ix|]; [|done]. simpl in Hu.
  destruct (row !! ix) as [r|] eqn:Hr; [|done]. simpl in Hu. injection Hu as <-.
  unfold doors_of. rewrite list_fmap_insert. apply list_insert_id.
  rewrite list_lookup_fmap, Hrow. simpl. f_equal.
  rewrite list_fmap_insert. symmetry. apply list_insert_id.
  rewrite list_lookup_fmap, Hr. simpl. by rewrite Hf.
Qed.

Lemma update_room_default_same_doors f (rooms : Grid) x y :
  (∀ r, doors (f r) = doors r) →
  same_doors rooms (default rooms (update_room f rooms x y)).
Proof.
  intros Hf. destruct (update_room f rooms x y) eqn:Hu; simpl.
  - by eapply update_room_same_doors.
  - apply same_doors_refl.
Qed.

Lemma py_pos_fmap {A B} (f : A → B) (l : list A) i : py_pos (f <$> l) i = py_pos l i.
Proof. apply py_pos_length. apply length_fmap. Qed.

Lemma py_getitem_fmap {A B} (f : A → B) (l : list A) i :
  py_getitem (f <$> l) i = f <$> py_getitem l i.
Proof.
  unfold py_getitem. rewrite py_pos_fmap. destruct (py_pos l i); [|done]. simpl.
  apply list_lookup_fmap.
Qed.

Lemma room_at_doors (rooms : Grid) x y :
  doors <$> room_at rooms x y =
  (row ← py_getitem (doors_of rooms) y; py_getitem row x).
Proof.
  unfold room_at, doors_of. rewrite py_getitem_fmap.
  destruct (py_getitem rooms y) as [row|]; [|done]. simpl.
  by rewrite py_getitem_fmap.
Qed.

(** The door flags are a function of the [doors] dictionaries. *)
Lemma door_open_doors_of sz (rooms rooms' : Grid) c d :
  doors_of rooms' = doors_of rooms → door_open sz rooms' c d = door_open sz rooms c d.
Proof.
  intros Heq. unfold door_open. f_equal.
  pose proof (room_at_doors rooms c.1 c.2) as H1.
  pose proof (room_at_doors rooms' c.1 c.2) as H2.
  rewrite Heq, <- H1 in H2.
  destruct (room_at rooms c.1 c.2), (room_at rooms' c.1 c.2); simpl in H2; try done.
  by injection H2 as ->.
Qed.

Section Preservation.
Context {G : Type} `{RandomSource G}.

Lemma populate_loop_same_doors tier cells rooms (g : G) :
  same_doors rooms (populate_loop tier cells rooms g).1.
Proof.
  revert rooms g. induction cells as [|[x y] rest IH]; intros rooms g; simpl;
    [apply same_doors_refl|].
  case_bool_decide; [|apply IH].
  destruct (random g) as [r g1]. destruct (r <? ENEMY_SPAWN_CHANCE)%float; [|apply IH].
  destruct (get_random_enemy tier g1) as [[e|] g2]; [|apply IH].
  destruct (update_room (append_enemy e) rooms x y) as [rooms'|] eqn:Hu;
    [|apply same_doors_refl].
  eapply same_doors_trans; [|apply IH]. by eapply update_room_same_doors; [|exact Hu].
Qed.

Lemma treasure_loop_same_doors n empty_rooms rooms (g : G) :
  same_doors rooms (treasure_loop n empty_rooms rooms g).1.
Proof.
  revert empty_rooms rooms g. induction n as [|n IH]; intros empty_rooms rooms g; simpl;
    [apply same_doors_refl|].
  destruct empty_rooms as [|c0 rest0]; [apply same_doors_refl|].
  destruct (randrange g _) as [i g1].
  destruct (py_pop (c0 :: rest0) i) as [[[x y] rest]|]; [|apply same_doors_refl].
  destruct (update_room set_has_treasure rooms x y) as [rooms'|] eqn:Hu;
    [|apply same_doors_refl].
  eapply same_doors_trans; [|apply IH]. by eapply update_room_same_doors; [|exact Hu].
Qed.

Lemma place_treasure_same_doors tier sz rooms (g : G) :
  same_doors rooms (_place_treasure_rooms tier sz rooms g).1.
Proof.
  unfold _place_treasure_rooms. destruct (randint g 1 tier) as [n g1].
  destruct (empty_cells _ _ rooms); [apply treasure_loop_same_doors|apply same_doors_refl].
Qed.

Lemma place_merchant_same_doors sz rooms (g : G) :
  same_doors rooms (_place_merchant sz rooms g).1.
Proof.
  unfold _place_merchant.
  destruct (empty_cells _ _ rooms) as [[|c0 rest0]|]; [apply same_doors_refl| |apply same_doors_refl].
  destruct (randrange g _) as [i g1].
  destruct (py_getitem (c0 :: rest0) i) as [[x y]|]; [|apply same_doors_refl].
  by apply update_room_default_same_doors.
Qed.

Lemma place_end_room_same_doors sz pos rooms :
  same_doors rooms (_place_end_room sz pos rooms).
Proof.
  unfold _place_end_room. destruct (farthest_scan pos _).1 as [[x y]|];
    [by apply update_room_default_same_doors|apply same_doors_refl].
Qed.

Lemma visibility_loop_same_doors sz x y offsets rooms :
  same_doors rooms (visibility_loop sz x y offsets rooms).
Proof.
  revert rooms. induction offsets as [|[dx dy] rest IH]; intros rooms; simpl;
    [apply same_doors_refl|].
  case_bool_decide; [|apply IH]. destruct (in_bounds sz _ _); [|apply IH].
  destruct (update_room set_is_visible rooms _ _) as [rooms'|] eqn:Hu;
    [|apply same_doors_refl].
  eapply same_doors_trans; [|apply IH]. by eapply update_room_same_doors; [|exact Hu].
Qed.

End Preservation.

(** * Generated dungeons *)

Lemma passage_ext sz (D D' : DoorMap) a b :
  (∀ c d, D' c d = D c d) → passage sz D a b → passage sz D' a b.
Proof. intros HD (d & Hd & Hb). exists d. by rewrite HD. Qed.

Lemma spanning_tree_ext sz (D D' : DoorMap) :
  (∀ c d, D' c d = D c d) → spanning_tree sz D → spanning_tree sz D'.
Proof.
  intros HD (Hreach & Hcount & Hac & Hdoors). split_and!.
  - intros c Hc. eapply rtc_subrel; [|by apply Hreach].
    intros a b. by apply passage_ext.
  - rewrite <- Hcount. f_equal. apply count_open_iff. intros p _. by rewrite HD.
  - intros l Hc. apply (Hac l). eapply cycle_impl; [|done].
    intros a b. by apply passage_ext.
  - intros a d. rewrite !HD. apply Hdoors.
Qed.

Lemma same_doors_spanning sz (rooms rooms' : Grid) :
  same_doors rooms rooms' →
  spanning_tree sz (door_open sz rooms) → spanning_tree sz (door_open sz rooms').
Proof.
  intros [_ Heq]. apply spanning_tree_ext. intros c d. by apply door_open_doors_of.
Qed.

Lemma spanning_tree_symmetric sz (D : DoorMap) : spanning_tree sz D → doors_symmetric sz D.
Proof.
  intros (_ & _ & _ & Hdoors) a d _ _.
  destruct (D a d) eqn:Had.
  - symmetry. by apply Hdoors.
  - destruct (D (neighbour a d) (opposite d)) eqn:Hn; [|done].
    apply Hdoors in Hn as [_ Hn]. rewrite neighbour_opposite, opposite_involutive in Hn.
    congruence.
Qed.

Section Generated.
Context {G : Type} `{RandomSource G}.

(** What [_generate_dungeon] does after the maze is carved. *)
Lemma generate_dungeon_spec enemies_empty (d : Dungeon) (g : G) :
  1 ≤ d_size d → rooms d = fresh_grid (d_size d) →
  _generate_dungeon enemies_empty d g ≠ OutOfFuel ∧
  (is_Some enemies_empty → ∃ d' g', _generate_dungeon enemies_empty d g = Ok (d', g')) ∧
  ∀ d' g', _generate_dungeon enemies_empty d g = Ok (d', g') →
    d_tier d' = d_tier d ∧ d_size d' = d_size d ∧ player_pos d' = player_pos d ∧
    grid_ok (d_size d) (rooms d') ∧
    spanning_tree (d_size d) (door_open (d_size d) (rooms d')).
Proof.
  intros Hsz Hfresh. unfold _generate_dungeon. rewrite Hfresh.
  destruct (generate_maze_spanning (d_size d) g Hsz) as (rooms1 & g1 & -> & Hok1 & Htree1).
  cbn [run_bind].
  assert (∀ rooms2 g2, same_doors rooms1 rooms2 →
    let r := (let '(rooms3, g3) := _place_treasure_rooms (d_tier d) (d_size d) rooms2 g2 in
              let '(rooms4, g4) := _place_merchant (d_size d) rooms3 g3 in
              rooms6 ←! of_option (update_room set_is_visible
                                     (_place_end_room (d_size d) (player_pos d) rooms4) 0 0);
              Ok (_update_visibility
                    {| d_tier := d_tier d; d_size := d_size d; player_pos := player_pos d;
                       rooms := rooms6 |}, g4)) in
    ∃ d' g', r = Ok (d', g') ∧
      d_tier d' = d_tier d ∧ d_size d' = d_size d ∧ player_pos d' = player_pos d ∧
      same_doors rooms1 (rooms d')) as Hrest.
  { intros rooms2 g2 H12.
    pose proof (place_treasure_same_doors (d_tier d) (d_size d) rooms2 g2) as H23.
    destruct (_place_treasure_rooms (d_tier d) (d_size d) rooms2 g2) as [rooms3 g3].
    pose proof (place_merchant_same_doors (d_size d) rooms3 g3) as H34.
    destruct (_place_merchant (d_size d) rooms3 g3) as [rooms4 g4].
    pose proof (place_end_room_same_doors (d_size d) (player_pos d) rooms4) as H45.
    cbn [fst] in H23, H34. cbv zeta.
    assert (same_doors rooms1 (_place_end_room (d_size d) (player_pos d) rooms4)) as H15
      by eauto using same_doors_trans.
    destruct (update_room_in_bounds set_is_visible (d_size d)
                (_place_end_room (d_size d) (player_pos d) rooms4) 0 0)
      as (r & rooms6 & _ & Hu & _ & _);
      [by apply H15|apply in_bounds_true; lia|].
    rewrite Hu. cbn [of_option run_bind]. eexists _, _. split; [done|].
    unfold _update_visibility. cbn [d_tier d_size player_pos rooms]. split_and!; [done..|].
    eapply same_doors_trans; [exact H15|].
    eapply same_doors_trans; [|apply visibility_loop_same_doors].
    by eapply update_room_same_doors; [|exact Hu]. }
  assert (∀ (r : run (Dungeon * G)) d' g', r = Ok (d', g') →
            same_doors rooms1 (rooms d') →
            grid_ok (d_size d) (rooms d') ∧
            spanning_tree (d_size d) (door_open (d_size d) (rooms d'))) as Hfin.
  { intros _ d' g' _ Hsd. split; [by apply Hsd|by eapply same_doors_spanning]. }
  unfold _populate_rooms. destruct enemies_empty as [[|]|]; cbn [run_bind].
  - destruct (Hrest rooms1 g1 (same_doors_refl _)) as (d' & g' & Hr & Ht & Hs & Hp & Hsd).
    rewrite Hr. split_and!; [done|eauto|].
    intros d'' g'' [= <- <-]. split_and!; [done..| |]; by eapply Hfin.
  - pose proof (populate_loop_same_doors (d_tier d) (cells_by_row (d_size d)) rooms1 g1) as H12.
    destruct (populate_loop (d_tier d) (cells_by_row (d_size d)) rooms1 g1) as [rooms2 g2].
    destruct (Hrest rooms2 g2 H12) as (d' & g' & Hr & Ht & Hs & Hp & Hsd).
    rewrite Hr. split_and!; [done|eauto|].
    intros d'' g'' [= <- <-]. split_and!; [done..| |]; by eapply Hfin.
  - split_and!; [done|by intros [? [=]]|done].
Qed.

(** The constructor [Dungeon(tier, size, player_pos)]. *)
Lemma Dungeon_generate_spec enemies_empty tier sz pos (g : G) :
  1 ≤ tier → 5 ≤ sz →
  Dungeon_generate enemies_empty tier sz pos g ≠ OutOfFuel ∧
  (is_Some enemies_empty → ∃ d g', Dungeon_generate enemies_empty tier sz pos g = Ok (d, g')) ∧
  ∀ d g', Dungeon_generate enemies_empty tier sz pos g = Ok (d, g') →
    d_tier d = tier ∧ d_size d = sz ∧ player_pos d = clamp_player_pos sz pos ∧
    grid_ok sz (rooms d) ∧ spanning_tree sz (door_open sz (rooms d)).
Proof.
  intros Ht Hs. unfold Dungeon_generate.
  rewrite !bool_decide_eq_false_2 by lia.
  apply (generate_dungeon_spec enemies_empty
           {| d_tier := tier; d_size := sz; player_pos := clamp_player_pos sz pos;
              rooms := fresh_grid sz |} g); cbn [d_size rooms]; [lia|done].
Qed.

End Generated.

(** * Movement *)


Lemma direction_map_other (direction : string) :
  direction ∉ ["north"; "south"; "east"; "west"] → direction_map !! direction = None.
Proof.
  intros Hd. unfold direction_map.
  rewrite !lookup_insert_ne, lookup_empty; [done|intros <-; apply Hd..].
  - do 3 apply list_elem_of_further. apply list_elem_of_here.
  - do 2 apply list_elem_of_further. apply list_elem_of_here.
  - apply list_elem_of_further, list_elem_of_here.
  - apply list_elem_of_here.
Qed.




Section Steps.
Context {G : Type} `{RandomSource G}.

Lemma move_player_same_doors d direction :
  d_size (move_player d direction).2 = d_size d ∧
  same_doors (rooms d) (rooms (move_player d direction).2).
Proof.
  unfold move_player.
  destruct (get_current_room d) as [room|]; [|split; [done|apply same_doors_refl]].
  destruct (negb _); [split; [done|apply same_doors_refl]|].
  destruct (direction_map !! direction) as [[dx dy]|]; [|split; [done|apply same_doors_refl]].
  destruct (in_bounds _ _ _); [|split; [done|apply same_doors_refl]].
  split; [done|]. apply visibility_loop_same_doors.
Qed.

Lemma update_current_room_same_doors f d d' :
  (∀ r, doors (f r) = doors r) → update_current_room f d = Some d' →
  d_size d' = d_size d ∧ same_doors (rooms d) (rooms d').
Proof.
  intros Hf. unfold update_current_room.
  destruct (update_room f (rooms d) _ _) as [rooms'|] eqn:Hu; [|done].
  intros [= <-]. split; [done|]. by eapply update_room_same_doors; [|exact Hu].
Qed.

Lemma dungeon_step_same_doors d d' :
  dungeon_step d d' → d_size d' = d_size d ∧ same_doors (rooms d) (rooms d').
Proof.
  destruct 1 as [d direction|d order g|d d' damage Hu|d d' Hu|d d' Hu|d d' Hu].
  - apply move_player_same_doors.
  - unfold move_player_random_adjacent.
    destruct (get_current_room d) as [room|]; [|split; [done|apply same_doors_refl]].
    destruct (filter _ order) as [|a t]; [split; [done|apply same_doors_refl]|].
    destruct (randrange g _) as [i g1].
    destruct (py_getitem (a :: t) i); [|split; [done|apply same_doors_refl]].
    apply move_player_same_doors.
  - by eapply update_current_room_same_doors; [|exact Hu].
  - by eapply update_current_room_same_doors; [|exact Hu].
  - by eapply update_current_room_same_doors; [|exact Hu].
  - by eapply update_current_room_same_doors; [|exact Hu].
Qed.

Lemma dungeon_steps_same_doors d d' :
  rtc dungeon_step d d' → d_size d' = d_size d ∧ same_doors (rooms d) (rooms d').
Proof.
  induction 1 as [d|d d1 d2 Hstep _ [IHs IHd]]; [split; [done|apply same_doors_refl]|].
  apply dungeon_step_same_doors in Hstep as [Hs Hd].
  split; [congruence|by eapply same_doors_trans].
Qed.

End Steps.

(** * The dungeon claims *)

(** C1. Every dungeon generated by [Dungeon(tier, size)] with [tier >= 1]
    and [size >= 5] is a spanning tree of its grid: each room of the
    size-by-size grid is reachable from (0,0) through open doors, there
    are exactly [size² - 1] door-edges, and the open doors form no cycle.
    The carving never exhausts the depth the model allows, and the
    constructor returns whenever the enemy table can be read. *)
Theorem generated_maze_is_spanning_tree {G : Type} `{RandomSource G}
    (enemies_empty : option bool) (tier size : Z) (pos : option (Z * Z)) (g : G) :
  1 ≤ tier → 5 ≤ size →
  Dungeon_generate enemies_empty tier size pos g ≠ OutOfFuel ∧
  (is_Some enemies_empty →
     ∃ d g', Dungeon_generate enemies_empty tier size pos g = Ok (d, g')) ∧
  ∀ d g', Dungeon_generate enemies_empty tier size pos g = Ok (d, g') →
    d_size d = size ∧ grid_ok size (rooms d) ∧
    (∀ c, in_grid size c = true → reachable size (door_open size (rooms d)) (0, 0) c) ∧
    Z.of_nat (door_edges size (door_open size (rooms d))) = size * size - 1 ∧
    acyclic (passage size (door_open size (rooms d))) ∧
    (∀ a dir, door_open size (rooms d) a dir = true →
       in_grid size (neighbour a dir) = true ∧
       door_open size (rooms d) (neighbour a dir) (opposite dir) = true).
Proof.
  intros Ht Hs.
  destruct (Dungeon_generate_spec enemies_empty tier size pos g) as (Hfuel & Hex & Hall);
    [lia..|].
  split_and!; [done|done|].
  intros d g' Hgen. destruct (Hall d g' Hgen) as (_ & Hsz & _ & Hok & Htree).
  split_and!; [done|done|apply Htree..].
Qed.

Lemma generated_maze_is_spanning_tree_witness :
  1 ≤ 1 ∧ 5 ≤ 5 ∧
  ∃ d g', Dungeon_generate (Some false) 1 5 None (42 : Z) = Ok (d, g') ∧
          Z.of_nat (door_edges 5 (door_open 5 (rooms d))) = 5 * 5 - 1.
Proof.
  split; [lia|]. split; [lia|].
  destruct (generated_maze_is_spanning_tree (Some false) 1 5 None (42 : Z))
    as (_ & Hex & Hall); [lia..|].
  destruct Hex as (d & g' & Hgen); [by eexists|].
  exists d, g'. split; [done|]. apply (Hall d g' Hgen).
Defined.

(** C2. Door symmetry is an invariant of every dungeon state reachable from
    generation: for rooms A and B adjacent in direction D, [A.doors[D]]
    equals [B.doors[opposite(D)]].  Carving establishes it, and no later
    operation (movement, fleeing, combat, looting, the merchant) changes
    any door. *)
Theorem door_symmetry_invariant {G : Type} `{RandomSource G}
    (enemies_empty : option bool) (tier size : Z) (pos : option (Z * Z)) (g g0 : G)
    (d0 d : Dungeon) :
  Dungeon_generate enemies_empty tier size pos g = Ok (d0, g0) →
  rtc dungeon_step d0 d →
  d_size d = size ∧
  doors_symmetric size (door_open size (rooms d)) ∧
  doors_of (rooms d) = doors_of (rooms d0).
Proof.
  intros Hgen Hsteps.
  assert (1 ≤ tier ∧ 5 ≤ size) as [Ht Hs].
  { unfold Dungeon_generate in Hgen. repeat case_bool_decide; try done. lia. }
  destruct (Dungeon_generate_spec enemies_empty tier size pos g) as (_ & _ & Hall); [lia..|].
  destruct (Hall d0 g0 Hgen) as (_ & Hsz & _ & Hok & Htree).
  apply dungeon_steps_same_doors in Hsteps as [Hsz' Hsame].
  split_and!; [congruence| |apply Hsame].
  apply spanning_tree_symmetric. by eapply same_doors_spanning.
Qed.

Lemma door_symmetry_invariant_witness :
  doors_symmetric 5 (door_open 5 (rooms (move_player demo_dungeon "south").2)).
Proof.
  destruct (Dungeon_generate (Some false) 1 5 None (42 : Z)) as [[d0 g0]| |] eqn:Hgen;
    [|vm_compute in Hgen; discriminate..].
  assert (demo_dungeon = d0) as Hdemo by (unfold demo_dungeon; by rewrite Hgen).
  apply (door_symmetry_invariant (Some false) 1 5 None (42 : Z) g0 d0
           (move_player demo_dungeon "south").2 Hgen).
  rewrite Hdemo. apply rtc_once, step_move.
Defined.


(** C10. For every dungeon state and every direction string other than
    north, south, east and west, [move_player] returns false and leaves
    the position, the visibility and all rooms unchanged; it raises
    nothing. *)
Theorem move_player_unknown_direction (d : Dungeon) (direction : string) :
  direction ∉ ["north"; "south"; "east"; "west"] →
  move_player d direction = (false, d).
Proof.
  intros Hd. unfold move_player.
  destruct (get_current_room d) as [room|]; [|done].
  destruct (negb _); [done|]. by rewrite direction_map_other.
Qed.

Lemma move_player_unknown_direction_witness :
  ("up" ∉ ["north"; "south"; "east"; "west"]) ∧
  move_player demo_dungeon "up" = (false, demo_dungeon).
Proof.
  assert ("up" ∉ ["north"; "south"; "east"; "west"]) as Hup.
  { rewrite !not_elem_of_cons. split_and!; [done..|]. apply not_elem_of_nil. }
  split; [exact Hup|]. apply (move_player_unknown_direction demo_dungeon "up" Hup).
Defined.

(** * Combat *)

(** C4. For every attacker, defender and d20 roll: a roll of 20 gives
    [(hit = true, crit = true)]; a roll of 1 gives [hit = false]; any other
    roll gives [crit = false] and a hit exactly when the roll plus the
    attacker's total attack, plus 2 if the attacker is the player, reaches
    10 plus the defender's total defense.  The roll returned is the roll
    drawn. *)
Theorem calculate_hit_spec {G : Type} `{RandomSource G} `{FloatParser}
    (attacker defender : Combatant) (g : G) :
  let roll := (roll_d20 g).1 in
  let result := (calculate_hit attacker defender g).1 in
  let hit := result.1.1 in
  let crit := result.2 in
  result.1.2 = roll ∧
  (calculate_hit attacker defender g).2 = (roll_d20 g).2 ∧
  (roll = 20 → hit = true ∧ crit = true) ∧
  (roll = 1 → hit = false ∧ crit = false) ∧
  (roll ≠ 20 → roll ≠ 1 →
     crit = false ∧
     (hit = true ↔
        10 + calculate_total_defense defender ≤
        roll + calculate_total_attack attacker + (if combatant_is_player attacker then 2 else 0))).
Proof.
  unfold calculate_hit. destruct (roll_d20 g) as [roll g1]. cbn [fst snd].
  destruct (decide (roll = 20)) as [H20|H20].
  { rewrite bool_decide_eq_true_2 by done. cbn [fst snd].
    split_and!; [done|done|done|lia|done]. }
  rewrite bool_decide_eq_false_2 by done.
  destruct (decide (roll = 1)) as [H1|H1].
  { rewrite bool_decide_eq_true_2 by done. cbn [fst snd].
    split_and!; [done|done|done|done|done]. }
  rewrite bool_decide_eq_false_2 by done. cbn [fst snd].
  split_and!; [done|done|done|done|]. intros _ _. split; [done|].
  rewrite bool_decide_eq_true. destruct (combatant_is_player attacker); lia.
Qed.





(** * The character *)

Lemma current_health_set h c : current_health (set_current_health h c) = h.
Proof. done. Qed.

Lemma apply_call_range c call :
  0 ≤ current_health c ≤ max_health c →
  0 ≤ current_health (apply_call c call) ≤ max_health c ∧
  max_health (apply_call c call) = max_health c.
Proof.
  intros Hc. destruct call as [amount|amount]; unfold apply_call, take_damage, heal;
    case_bool_decide; cbn [fst snd current_health max_health set_current_health]; lia.
Qed.

(** C6. For every character whose health starts within [0, max_health]
    and every sequence of [take_damage] and [heal] calls, the health stays
    within [0, max_health].  With a non-negative argument [take_damage]
    subtracts and clamps at 0, returning whether the health is still
    positive, and [heal] adds and clamps at [max_health], returning the
    amount actually healed, at most the amount asked for.  A negative
    argument is rejected by either method and changes nothing. *)
Theorem take_damage_heal_bounds (c : Character) (calls : list health_call) :
  0 ≤ current_health c ≤ max_health c →
  (0 ≤ current_health (foldl apply_call c calls) ≤ max_health c ∧
   max_health (foldl apply_call c calls) = max_health c) ∧
  (∀ amount, 0 ≤ amount →
     current_health (take_damage c amount).2 = Z.max 0 (current_health c - amount) ∧
     (take_damage c amount).1 = bool_decide (current_health (take_damage c amount).2 > 0) ∧
     current_health (heal c amount).2 = Z.min (max_health c) (current_health c + amount) ∧
     (heal c amount).1 = current_health (heal c amount).2 - current_health c ∧
     0 ≤ (heal c amount).1 ≤ amount) ∧
  (∀ amount, amount < 0 → take_damage c amount = (true, c) ∧ heal c amount = (0, c)).
Proof.
  intros Hc. split; [|split].
  - revert c Hc. induction calls as [|call calls IH]; intros c Hc; [done|].
    cbn [foldl]. destruct (apply_call_range c call Hc) as [Hr Hm].
    rewrite <- Hm. apply IH. by rewrite Hm.
  - intros amount Ha. unfold take_damage, heal.
    rewrite !bool_decide_eq_false_2 by lia.
    cbn [fst snd current_health set_current_health]. split_and!; [done|done|done|done|lia|lia].
  - intros amount Ha. unfold take_damage, heal. by rewrite !bool_decide_eq_true_2 by lia.
Qed.

Lemma take_damage_heal_bounds_witness :
  0 ≤ current_health demo_character ≤ max_health demo_character ∧
  0 ≤ current_health
        (foldl apply_call demo_character [TakeDamage 40; Heal 500; Heal (-3); TakeDamage 7])
    ≤ max_health demo_character.
Proof.
  assert (0 ≤ current_health demo_character ≤ max_health demo_character) as Hc
    by (vm_compute; split; discriminate).
  split; [exact Hc|].
  apply (take_damage_heal_bounds demo_character
           [TakeDamage 40; Heal 500; Heal (-3); TakeDamage 7] Hc).
Defined.

(** The same calls, evaluated: 29, 0, 100, 100, 93. *)
Example take_damage_heal_demo :
  current_health
    (foldl apply_call demo_character [TakeDamage 40; Heal 500; Heal (-3); TakeDamage 7]) = 93.
Proof. reflexivity. Qed.

(** *** Experience *)

Lemma level_up_spec db c td :
  get_tier_data db (tier c + 1) = Some td →
  tier (_level_up db c) = tier c + 1 ∧ xp (_level_up db c) = xp c ∧
  has_stats_of (_level_up db c) td ∧
  current_health (_level_up db c) =
    default (current_health c) (rescale_health (td_health td) (current_health c) (max_health c)).
Proof.
  intros Htd. unfold _level_up, _load_stats. cbn [tier set_tier]. rewrite Htd.
  cbn [mbind option_bind max_health current_health].
  destruct (rescale_health _ _ _); done.
Qed.

(** C7, counterexample to the rescaling as worded: 29 of 100 health taken
    to a maximum of 200 is 58 when the fraction is kept exactly and rounded
    down, and [add_xp] leaves 57, because 29 / 100 is rounded to a double
    first. *)
Lemma add_xp_rescale_counterexample :
  let c' := add_xp demo_db demo_character 100 in
  tier c' = tier demo_character + 1 ∧ max_health demo_character = 100 ∧
  max_health c' = 200 ∧ current_health demo_character = 29 ∧
  current_health c' = 57 ∧
  exact_rescale (max_health c') (current_health demo_character) (max_health demo_character) = 58.
Proof. vm_compute. repeat split. Qed.

(** C7 (amended). A single [add_xp] call with a non-negative amount adds
    exactly that amount to [xp] and advances the tier by at most one.  If
    the new [xp] meets the minimum of the tier right after the current one,
    the tier goes up by exactly one, whatever further thresholds the grant
    crosses, that tier's base stats are loaded, and [current_health]
    becomes [int(max_health * (current_health / old_max_health))] computed
    on doubles (it stays as it is where that has no value, as for an old
    maximum of 0); otherwise only [xp] changes.  A negative amount changes
    nothing. *)
Theorem add_xp_spec (db : Database) (c : Character) (xp_amount : Z) :
  (xp_amount < 0 → add_xp db c xp_amount = c) ∧
  (0 ≤ xp_amount →
     xp (add_xp db c xp_amount) = xp c + xp_amount ∧
     (tier (add_xp db c xp_amount) = tier c ∨ tier (add_xp db c xp_amount) = tier c + 1) ∧
     match get_tier_data db (tier c + 1) with
     | Some td =>
         if bool_decide (td_min_xp td ≤ xp c + xp_amount) then
           tier (add_xp db c xp_amount) = tier c + 1 ∧
           has_stats_of (add_xp db c xp_amount) td ∧
           current_health (add_xp db c xp_amount) =
             default (current_health c)
               (rescale_health (td_health td) (current_health c) (max_health c))
         else add_xp db c xp_amount = set_xp (xp c + xp_amount) c
     | None => add_xp db c xp_amount = set_xp (xp c + xp_amount) c
     end).
Proof.
  unfold add_xp. split.
  - intros Hneg. by rewrite bool_decide_eq_true_2.
  - intros Hpos. rewrite bool_decide_eq_false_2 by lia.
    unfold _check_level_up. cbn [tier xp set_xp].
    destruct (get_tier_data db (tier c + 1)) as [td|] eqn:Htd; [|by auto].
    case_bool_decide; [|by auto].
    destruct (level_up_spec db (set_xp (xp c + xp_amount) c) td Htd) as (Ht & Hx & Hs & Hh).
    cbn [tier xp set_xp current_health max_health] in Ht, Hx, Hh.
    split_and!; [done|by right|done|done|done].
Qed.

(** One grant that crosses the thresholds of tiers 2 and 3 advances by
    one tier only. *)
Example add_xp_crosses_two_thresholds :
  tier (add_xp demo_db demo_character 400) = 2 ∧ xp (add_xp demo_db demo_character 400) = 400.
Proof. vm_compute. done. Qed.

(** *** Snapshots *)



(** * Halving an integer price in binary64 *)











(** * The merchant *)




Lemma get_item_value_pos item : 1 ≤ get_item_value item.
Proof. unfold get_item_value. destruct (_ ≫= _); lia. Qed.




(** The sword stocked at 120 is bought with 250 copper and sold back for
    60. *)
Example merchant_buy_sell_demo :
  match buy_item demo_merchant demo_character "Rusty Sword" with
  | Some (true, m1, p1) =>
      money p1 = 130 ∧
      match last (inventory p1) with
      | Some bought =>
          money (sell_item m1 p1 bought).2 = 190 ∧
          length (m_inventory (sell_item m1 p1 bought).1.2) = 1%nat
      | None => False
      end
  | _ => False
  end.
Proof. vm_compute. by split_and!. Qed.
